(** * fluxible-router: the history synchronizer ([handleHistory.js])

    A shallow embedding of the [HistoryHandler] component of
    [packages/fluxible-router/src/handleHistory.js] and the properties of
    its popstate handling, outbound navigation sync and debounced scroll
    capture.

    The component's methods are written in a small state-and-exception
    monad over a [World]: the host window (viewport offsets, the
    before-unload slot, the confirm prompt, timers, listeners), the native
    history handle, the component instance ([this]) and a log of the calls
    the component makes on its collaborators. *)

From stdpp Require Import base option strings gmap list.
From Stdlib Require Import ZArith Lia.

(** ** Data model *)

(** [params] and [query] are plain objects used as string-keyed maps. *)
Abbreviation Params := (gmap string string).

(** [{ x: ..., y: ... }]; a coordinate may be missing from a stored object. *)
Record Scroll := mkScroll {
  scroll_x : option Z;
  scroll_y : option Z;
}.

(** The state object kept per history entry: [{ query, params, scroll }].
    A missing field is [None]; [{}] is [emptyState]. *)
Record HistoryState := mkHistoryState {
  st_query  : option Params;
  st_params : option Params;
  st_scroll : option Scroll;
}.

Definition emptyState : HistoryState := mkHistoryState None None None.

(** [props.currentNavigate]; a missing field is [None] ([undefined]). *)
Record Navigate := mkNavigate {
  nav_type   : option string;
  nav_url    : option string;
  nav_params : option Params;
  nav_query  : option Params;
  nav_preserveScrollPosition : bool;
}.

(** [{}], the value of [props.currentNavigate || {}] without a descriptor. *)
Definition emptyNavigate : Navigate := mkNavigate None None None None false.

(** [props.currentRoute]. *)
Record Route := mkRoute { route_url : option string }.

Definition emptyRoute : Route := mkRoute None.

Record Props := mkProps {
  currentRoute    : option Route;
  currentNavigate : option Navigate;
}.

(** The native event handed to [_onHistoryChange]; [e.state] is [null]
    ([None]) or a state object. *)
Record Event := mkEvent { ev_state : option HistoryState }.

(** [opts.ignorePopstateOnPageLoad]: a boolean, or a function returning one
    (represented by the value it returns). *)
Inductive BoolOrFn :=
| IsBool (b : bool)
| IsFunction (returns : bool).

Record Options := mkOptions {
  checkRouteOnPageLoad     : bool;
  enableScroll             : bool;
  saveScrollInState        : bool;
  ignorePopstateOnPageLoad : BoolOrFn;
}.

Definition defaultOptions : Options :=
  {| checkRouteOnPageLoad := false;
     enableScroll := true;
     saveScrollInState := true;
     ignorePopstateOnPageLoad := IsBool false |}.

Definition TYPE_CLICK : string := "click".
Definition TYPE_PAGELOAD : string := "pageload".
Definition TYPE_REPLACESTATE : string := "replacestate".
Definition TYPE_POPSTATE : string := "popstate".
Definition TYPE_DEFAULT : string := "default".

(** The payload given to [executeAction(navigateAction, payload)]. *)
Record Payload := mkPayload {
  p_type   : string;
  p_url    : string;
  p_params : option Params;
  p_query  : option Params;
}.

(** [window.onbeforeunload] when it is a function, represented by what a
    call of it does: return a text (or nothing), or throw. *)
Inductive UnloadHook :=
| Returns (text : option string)
| Throws (error : string).

(** The functions the component registers as listeners. *)
Inductive Listener :=
| preloadListener
| bound_onHistoryChange
| bound_onScroll.

Global Instance Listener_eq_dec : EqDecision Listener.
Proof. solve_decision. Defined.

(** Every call the component makes on a collaborator, in order. *)
Inductive Effect :=
| PushState (state : HistoryState) (title : option string) (url : option string)
| ReplaceState (state : HistoryState) (title : option string) (url : option string)
| ExecuteAction (payload : Payload)
| CallOnBeforeUnload
| Confirm (text : string)
| ConsoleWarn (message error : string)
| ScrollTo (x y : Z)
| SetTimeout (id : positive) (delay : nat)
| ClearTimeout (id : positive).

(** ** The host window *)

Record Timer := mkTimer { timer_id : positive; timer_due : nat }.

Record Window := mkWindow {
  scrollX        : Z;
  pageXOffset    : Z;
  scrollY        : Z;
  pageYOffset    : Z;
  onbeforeunload : option UnloadHook;
  (* the user's answer to [window.confirm(text)] *)
  confirm_answer : string → bool;
  (* [setTimeout] / [clearTimeout]: the clock, the timers this component
     armed that have not fired or been cleared yet, and the next handle
     (handles are positive integers) *)
  now            : nat;
  pending        : list Timer;
  next_timer     : positive;
  scroll_listeners   : list Listener;
  popstate_listeners : list Listener;
}.

(** ** The native history handle *)

(** Modelled from the spec: the history handle ([History.js], created by
    [options.historyCreator]) is not part of the sources.  Section 6 of the
    specification gives its contract: [getUrl] and [getState] read the
    current entry, [pushState] appends a new entry, [replaceState]
    overwrites the current entry with title and url defaulting to the
    current ones, [on]/[off] subscribe and unsubscribe a listener.  An
    entry holds a state (or none), a title and a url. *)
Record Entry := mkEntry {
  entry_state : option HistoryState;
  entry_title : option string;
  entry_url   : string;
}.

(** Modelled from the spec: the history handle is a stack of entries, the
    current one on top, and the listeners subscribed with [on]. *)
Record History := mkHistory {
  current   : Entry;
  earlier   : list Entry;
  listeners : list Listener;
}.

Definition depth (h : History) : nat := S (length (earlier h)).

(** Modelled from the spec: [getUrl() -> string] of the history handle. *)
Definition getUrl (h : History) : string := entry_url (current h).

(** Modelled from the spec: [getState() -> HistoryEntryState | null] of the
    history handle. *)
Definition getState (h : History) : option HistoryState :=
  entry_state (current h).

(** Modelled from the spec: the entry the history handle writes for
    [(state, title, url)], a missing title or url taken from the current
    entry. *)
Definition new_entry (h : History) (state : HistoryState)
    (title url : option string) : Entry :=
  {| entry_state := Some state;
     entry_title := match title with
                    | Some t => Some t
                    | None => entry_title (current h)
                    end;
     entry_url := default (entry_url (current h)) url |}.

(** Modelled from the spec: [pushState(state, title, url)] of the history
    handle appends a new entry. *)
Definition pushState (state : HistoryState) (title url : option string)
    (h : History) : History :=
  {| current := new_entry h state title url;
     earlier := current h :: earlier h;
     listeners := listeners h |}.

(** Modelled from the spec: [replaceState(state, title?, url?)] of the
    history handle overwrites the current entry; the depth of the stack does
    not change. *)
Definition replaceState (state : HistoryState) (title url : option string)
    (h : History) : History :=
  {| current := new_entry h state title url;
     earlier := earlier h;
     listeners := listeners h |}.

(** Modelled from the spec: [on(listener)] and [off(listener)] of the
    history handle. *)
Definition on (l : Listener) (h : History) : History :=
  {| current := current h; earlier := earlier h;
     listeners := listeners h ++ [l] |}.

Definition off (l : Listener) (h : History) : History :=
  {| current := current h; earlier := earlier h;
     listeners := filter (λ l', l' ≠ l) (listeners h) |}.

(** ** The component instance and the world *)

(** The fields of [this]. *)
Record Instance := mkInstance {
  props : Props;
  _ignorePageLoadPopstate : bool;
  _scrollTimer : option positive;
}.

Record World := mkWorld {
  window  : Window;
  history : History;                 (* [this._history] *)
  this    : Instance;
  (* module-level state of handleHistory.js *)
  HAS_PUSH_STATE : bool;
  lastPendingPopstateEvent : option Event;
  log     : list Effect;
}.

Definition with_window (f : Window → Window) (w : World) : World :=
  {| window := f (window w); history := history w; this := this w;
     HAS_PUSH_STATE := HAS_PUSH_STATE w;
     lastPendingPopstateEvent := lastPendingPopstateEvent w;
     log := log w |}.

Definition with_history (f : History → History) (w : World) : World :=
  {| window := window w; history := f (history w); this := this w;
     HAS_PUSH_STATE := HAS_PUSH_STATE w;
     lastPendingPopstateEvent := lastPendingPopstateEvent w;
     log := log w |}.

Definition with_this (f : Instance → Instance) (w : World) : World :=
  {| window := window w; history := history w; this := f (this w);
     HAS_PUSH_STATE := HAS_PUSH_STATE w;
     lastPendingPopstateEvent := lastPendingPopstateEvent w;
     log := log w |}.

Definition with_lastPending (e : option Event) (w : World) : World :=
  {| window := window w; history := history w; this := this w;
     HAS_PUSH_STATE := HAS_PUSH_STATE w;
     lastPendingPopstateEvent := e;
     log := log w |}.

Definition record (e : Effect) (w : World) : World :=
  {| window := window w; history := history w; this := this w;
     HAS_PUSH_STATE := HAS_PUSH_STATE w;
     lastPendingPopstateEvent := lastPendingPopstateEvent w;
     log := log w ++ [e] |}.

Definition set_viewport (x y : Z) (win : Window) : Window :=
  {| scrollX := x; pageXOffset := x; scrollY := y; pageYOffset := y;
     onbeforeunload := onbeforeunload win;
     confirm_answer := confirm_answer win;
     now := now win; pending := pending win; next_timer := next_timer win;
     scroll_listeners := scroll_listeners win;
     popstate_listeners := popstate_listeners win |}.

Definition set_onbeforeunload (v : option UnloadHook) (win : Window) : Window :=
  {| scrollX := scrollX win; pageXOffset := pageXOffset win;
     scrollY := scrollY win; pageYOffset := pageYOffset win;
     onbeforeunload := v;
     confirm_answer := confirm_answer win;
     now := now win; pending := pending win; next_timer := next_timer win;
     scroll_listeners := scroll_listeners win;
     popstate_listeners := popstate_listeners win |}.

Definition set_timers (t : nat) (ps : list Timer) (next : positive)
    (win : Window) : Window :=
  {| scrollX := scrollX win; pageXOffset := pageXOffset win;
     scrollY := scrollY win; pageYOffset := pageYOffset win;
     onbeforeunload := onbeforeunload win;
     confirm_answer := confirm_answer win;
     now := t; pending := ps; next_timer := next;
     scroll_listeners := scroll_listeners win;
     popstate_listeners := popstate_listeners win |}.

Definition set_listeners (scroll popstate : list Listener)
    (win : Window) : Window :=
  {| scrollX := scrollX win; pageXOffset := pageXOffset win;
     scrollY := scrollY win; pageYOffset := pageYOffset win;
     onbeforeunload := onbeforeunload win;
     confirm_answer := confirm_answer win;
     now := now win; pending := pending win; next_timer := next_timer win;
     scroll_listeners := scroll;
     popstate_listeners := popstate |}.

Definition set_props (p : Props) (i : Instance) : Instance :=
  {| props := p; _ignorePageLoadPopstate := _ignorePageLoadPopstate i;
     _scrollTimer := _scrollTimer i |}.

Definition set_ignorePageLoadPopstate (b : bool) (i : Instance) : Instance :=
  {| props := props i; _ignorePageLoadPopstate := b;
     _scrollTimer := _scrollTimer i |}.

Definition set_scrollTimer (t : option positive) (i : Instance) : Instance :=
  {| props := props i;
     _ignorePageLoadPopstate := _ignorePageLoadPopstate i;
     _scrollTimer := t |}.

(** ** The monad of method bodies

    A method body takes the world to a completion (a value, or a thrown
    error) and the world it leaves behind. *)

Inductive Completion (A : Type) :=
| Normal (a : A)
| Throw (error : string).
Arguments Normal {A} a.
Arguments Throw {A} error.

Definition JS (A : Type) : Type := World → Completion A * World.

(** A body that only yields a value. *)
Definition value {A} (a : A) : JS A := λ w, (Normal a, w).

Definition bind {A B} (m : JS A) (f : A → JS B) : JS B :=
  λ w, match m w with
       | (Normal a, w') => f a w'
       | (Throw err, w') => (Throw err, w')
       end.

Declare Scope js_scope.
Delimit Scope js_scope with js.
Notation "x ← y ; z" := (bind y (λ x, z))
  (at level 20, y at level 100, z at level 200, only parsing) : js_scope.
Notation "x ;; z" := (bind x (λ _, z))
  (at level 100, z at level 200, only parsing, right associativity) : js_scope.
Local Open Scope js_scope.

(** [try { m } catch (error) { handler error }] *)
Definition try_catch {A} (m : JS A) (handler : string → JS A) : JS A :=
  λ w, match m w with
       | (Normal a, w') => (Normal a, w')
       | (Throw err, w') => handler err w'
       end.

Definition gets {A} (f : World → A) : JS A := λ w, (Normal (f w), w).
Definition modify (f : World → World) : JS unit := λ w, (Normal tt, f w).
Definition skip : JS unit := value tt.

(** The world a body leaves behind. *)
Definition exec {A} (m : JS A) (w : World) : World := (m w).2.

(** ** JavaScript truthiness, at the types it is used at *)

(** [a || b] on numbers: [0] is falsy. *)
Definition or_num (a b : Z) : Z := if decide (a = 0%Z) then b else a.

(** [x || 0] for a coordinate that may be missing. *)
Definition or_zero (x : option Z) : Z :=
  match x with Some v => or_num v 0 | None => 0%Z end.

(** A text is truthy when it is present and not empty. *)
Definition truthy_text (t : option string) : bool :=
  match t with Some s => bool_decide (s ≠ "") | None => false end.

(** [t || d] on texts. *)
Definition or_text (t : option string) (d : string) : string :=
  match t with Some s => if bool_decide (s ≠ "") then s else d | None => d end.

(** [o === null], and [!!o] for an object or [null]. *)
Definition is_null {A} (o : option A) : bool :=
  match o with None => true | Some _ => false end.
Definition truthy {A} (o : option A) : bool := negb (is_null o).

(** [scroll && scroll.x === x && scroll.y === y] *)
Definition same_scroll (scroll : option Scroll) (x y : Z) : bool :=
  match scroll with
  | Some s => bool_decide (scroll_x s = Some x) && bool_decide (scroll_y s = Some y)
  | None => false
  end.

(** [navParams.pageTitle || null] *)
Definition pageTitle_of (navParams : Params) : option string :=
  match navParams !! "pageTitle" with
  | Some t => if bool_decide (t ≠ "") then Some t else None
  | None => None
  end.

(** [{ x: window.scrollX || window.pageXOffset,
       y: window.scrollY || window.pageYOffset }] *)
Definition offset_x (win : Window) : Z := or_num (scrollX win) (pageXOffset win).
Definition offset_y (win : Window) : Z := or_num (scrollY win) (pageYOffset win).
Definition current_scroll (win : Window) : Scroll :=
  mkScroll (Some (offset_x win)) (Some (offset_y win)).

(** ** The collaborators' operations, as monadic actions *)

Definition history_getState : JS (option HistoryState) :=
  gets (λ w, getState (history w)).

Definition history_getUrl : JS string :=
  gets (λ w, getUrl (history w)).

Definition history_pushState (state : HistoryState)
    (title url : option string) : JS unit :=
  modify (λ w, record (PushState state title url)
                 (with_history (pushState state title url) w)).

Definition history_replaceState (state : HistoryState)
    (title url : option string) : JS unit :=
  modify (λ w, record (ReplaceState state title url)
                 (with_history (replaceState state title url) w)).

Definition history_on (l : Listener) : JS unit := modify (with_history (on l)).
Definition history_off (l : Listener) : JS unit := modify (with_history (off l)).

(** [this.context.executeAction(navigateAction, payload)] *)
Definition executeAction (payload : Payload) : JS unit :=
  modify (record (ExecuteAction payload)).

Definition window_confirm (text : string) : JS bool :=
  λ w, (Normal (confirm_answer (window w) text), record (Confirm text) w).

Definition window_scrollTo (x y : Z) : JS unit :=
  modify (λ w, record (ScrollTo x y) (with_window (set_viewport x y) w)).

Definition console_warn (message error : string) : JS unit :=
  modify (record (ConsoleWarn message error)).

(** [window.onbeforeunload()] *)
Definition call_onbeforeunload (f : UnloadHook) : JS (option string) :=
  λ w, match f with
       | Returns text => (Normal text, record CallOnBeforeUnload w)
       | Throws error => (Throw error, record CallOnBeforeUnload w)
       end.

(** [window.setTimeout(this._saveScrollPosition, delay)]: the only callback
    this module ever arms is [_saveScrollPosition]. *)
Definition window_setTimeout (delay : nat) : JS positive :=
  λ w, let win := window w in
       let id := next_timer win in
       (Normal id,
        record (SetTimeout id delay)
          (with_window
             (set_timers (now win)
                (pending win ++ [mkTimer id (now win + delay)])
                (Pos.succ id)) w)).

Definition without_timer (id : positive) (ps : list Timer) : list Timer :=
  filter (λ t, timer_id t ≠ id) ps.

Definition window_clearTimeout (id : positive) : JS unit :=
  modify (λ w, record (ClearTimeout id)
                 (with_window
                    (λ win, set_timers (now win)
                              (without_timer id (pending win))
                              (next_timer win) win) w)).

Definition window_addScrollListener (l : Listener) : JS unit :=
  modify (with_window (λ win,
    set_listeners (scroll_listeners win ++ [l]) (popstate_listeners win) win)).

Definition window_removeScrollListener (l : Listener) : JS unit :=
  modify (with_window (λ win,
    set_listeners (filter (λ l', l' ≠ l) (scroll_listeners win))
                  (popstate_listeners win) win)).

Definition window_addPopstateListener (l : Listener) : JS unit :=
  modify (with_window (λ win,
    set_listeners (scroll_listeners win) (popstate_listeners win ++ [l]) win)).

Definition window_removePopstateListener (l : Listener) : JS unit :=
  modify (with_window (λ win,
    set_listeners (scroll_listeners win)
                  (filter (λ l', l' ≠ l) (popstate_listeners win)) win)).

(** ** Module level *)

(** [if (HAS_PUSH_STATE) { window.addEventListener(EVENT_POPSTATE,
    preloadListener); }], run when the module is loaded.  What
    [preloadListener] does with an event, [lastPendingPopstateEvent =
    arguments], is in [popstate_event] below. *)
Definition module_load : JS unit :=
  has_push_state ← gets HAS_PUSH_STATE;
  if has_push_state
  then window_addPopstateListener preloadListener
  else skip.

(** ** The methods of [HistoryHandler] *)

Section HistoryHandler.

Variable options : Options.

Definition shouldIgnorePopstateOnPageLoad : bool :=
  match ignorePopstateOnPageLoad options with
  | IsFunction returns => returns
  | IsBool b => b
  end.

Definition _saveScrollPosition : JS unit :=
  (* (this._history.getState && this._history.getState()) || {} *)
  stored ← history_getState;
  let historyState := default emptyState stored in
  win ← gets window;
  let scrollX := offset_x win in
  let scrollY := offset_y win in
  if same_scroll (st_scroll historyState) scrollX scrollY
  then skip
  else
    (* historyState.scroll = { x: scrollX, y: scrollY } *)
    let historyState :=
      mkHistoryState (st_query historyState) (st_params historyState)
                     (Some (mkScroll (Some scrollX) (Some scrollY))) in
    history_replaceState historyState None None.

Definition _onScroll : JS unit :=
  timer ← gets (λ w, _scrollTimer (this w));
  match timer with
  | Some id => window_clearTimeout id
  | None => skip
  end;;
  id ← window_setTimeout 150;
  modify (with_this (set_scrollTimer (Some id))).

Definition _onHistoryChange (e : Event) : JS unit :=
  ignore ← gets (λ w, _ignorePageLoadPopstate (this w));
  isPageloadPopstate ←
    (if ignore then
       stateFromHistory ← history_getState;
       value (is_null (ev_state e) && truthy stateFromHistory)
     else value false);
  if isPageloadPopstate then skip
  else
    props ← gets (λ w, props (this w));
    url ← history_getUrl;
    let currentRoute := default emptyRoute (currentRoute props) in
    let nav := default emptyNavigate (currentNavigate props) in
    let currentUrl := route_url currentRoute in
    hook ← gets (λ w, onbeforeunload (window w));
    onBeforeUnloadText ←
      match hook with
      | Some f =>
          try_catch (call_onbeforeunload f)
            (λ error,
               console_warn "Warning: Call of window.onbeforeunload failed" error;;
               value (Some ""))
      | None => value (Some "")
      end;
    confirmResult ←
      (if truthy_text onBeforeUnloadText
       then window_confirm (default "" onBeforeUnloadText)
       else value true);
    let navParams := default ∅ (nav_params nav) in
    let navQuery := default ∅ (nav_query nav) in
    win ← gets window;
    let historyState :=
      mkHistoryState (Some navQuery) (Some navParams)
        (if saveScrollInState options then Some (current_scroll win) else None) in
    let pageTitle := pageTitle_of navParams in
    if negb confirmResult then
      history_pushState historyState pageTitle currentUrl
    else if bool_decide (Some url ≠ currentUrl) then
      modify (with_window (set_onbeforeunload None));;
      executeAction
        {| p_type := TYPE_POPSTATE;
           p_url := url;
           p_params := ev_state e ≫= st_params;
           p_query := ev_state e ≫= st_query |}
    else skip.

Definition componentDidMount : JS unit :=
  (* this._history = options.historyCreator(): the world's history handle *)
  modify (with_this (set_ignorePageLoadPopstate shouldIgnorePopstateOnPageLoad));;
  ignore ← gets (λ w, _ignorePageLoadPopstate (this w));
  (if ignore then
     historyState ← history_getState;
     if negb (truthy historyState)
     then history_replaceState emptyState None None
     else skip
   else skip);;
  modify (with_this (set_scrollTimer None));;
  (if checkRouteOnPageLoad options then
     urlFromHistory ← history_getUrl;
     props ← gets (λ w, props (this w));
     let urlFromState := currentRoute props ≫= route_url in
     if bool_decide (Some urlFromHistory ≠ urlFromState) then
       executeAction
         {| p_type := TYPE_PAGELOAD; p_url := urlFromHistory;
            p_params := None; p_query := None |}
     else skip
   else skip);;
  history_on bound_onHistoryChange;;
  has_push_state ← gets HAS_PUSH_STATE;
  (if has_push_state then
     window_removePopstateListener preloadListener;;
     buffered ← gets lastPendingPopstateEvent;
     match buffered with
     | Some e => _onHistoryChange e;; modify (with_lastPending None)
     | None => skip
     end
   else skip);;
  if saveScrollInState options
  then window_addScrollListener bound_onScroll
  else skip.

Definition componentWillUnmount : JS unit :=
  history_off bound_onHistoryChange;;
  if saveScrollInState options
  then window_removeScrollListener bound_onScroll
  else skip.

Definition componentDidUpdate : JS unit :=
  props ← gets (λ w, props (this w));
  let nav := default emptyNavigate (currentNavigate props) in
  let navType := or_text (nav_type nav) TYPE_DEFAULT in
  let navParams := default ∅ (nav_params nav) in
  let navQuery := default ∅ (nav_query nav) in
  if bool_decide (navType = TYPE_CLICK ∨ navType = TYPE_DEFAULT
                  ∨ navType = TYPE_REPLACESTATE) then
    url ← history_getUrl;
    if bool_decide (nav_url nav = Some url) then skip
    else
      scroll ←
        (if nav_preserveScrollPosition nav then
           win ← gets window;
           value (if saveScrollInState options
                 then Some (current_scroll win) else None)
         else
           (if enableScroll options then window_scrollTo 0 0 else skip);;
           value (if saveScrollInState options
                 then Some (mkScroll (Some 0%Z) (Some 0%Z)) else None));
      let historyState := mkHistoryState (Some navQuery) (Some navParams) scroll in
      let pageTitle := pageTitle_of navParams in
      if bool_decide (navType = TYPE_REPLACESTATE)
      then history_replaceState historyState pageTitle (nav_url nav)
      else history_pushState historyState pageTitle (nav_url nav)
  else if bool_decide (navType = TYPE_POPSTATE) then
    if enableScroll options then
      stored ← history_getState;
      let historyState := default emptyState stored in
      let scroll := default (mkScroll None None) (st_scroll historyState) in
      window_scrollTo (or_zero (scroll_x scroll)) (or_zero (scroll_y scroll))
    else skip
  else skip.

(** ** The host's event loop

    The window delivers an event to the listeners registered for it, and
    runs the callback of a timer once it is due.  Handlers run to
    completion, one at a time. *)

(** The user scrolls the viewport to [(x, y)]; the scroll event follows. *)
Definition scroll_event (x y : Z) : JS unit :=
  modify (with_window (set_viewport x y));;
  ls ← gets (λ w, scroll_listeners (window w));
  if bool_decide (bound_onScroll ∈ ls) then _onScroll else skip.

(** The native history has moved to another entry; the event follows. *)
Definition popstate_event (e : Event) : JS unit :=
  ps ← gets (λ w, popstate_listeners (window w));
  (if bool_decide (preloadListener ∈ ps)
   then modify (with_lastPending (Some e))   (* lastPendingPopstateEvent = arguments *)
   else skip);;
  hs ← gets (λ w, listeners (history w));
  if bool_decide (bound_onHistoryChange ∈ hs) then _onHistoryChange e else skip.

(** The timer [id] fires: it leaves the pending timers and its callback,
    [_saveScrollPosition], runs. *)
Definition fire (id : positive) : JS unit :=
  modify (with_window (λ win,
    set_timers (now win) (without_timer id (pending win)) (next_timer win) win));;
  _saveScrollPosition.

Fixpoint fire_all (ids : list positive) : JS unit :=
  match ids with
  | [] => skip
  | id :: ids => fire id;; fire_all ids
  end.

Definition due_by (t : nat) (ps : list Timer) : list positive :=
  timer_id <$> filter (λ p, timer_due p ≤ t) ps.

(** [d] time units pass: every timer due by then fires, in the order the
    timers were armed. *)
Definition elapse (d : nat) : JS unit :=
  win ← gets window;
  let t := now win + d in
  modify (with_window (set_timers t (pending win) (next_timer win)));;
  fire_all (due_by t (pending win)).

End HistoryHandler.

(** ** Reading the log *)

(** The payloads dispatched through [executeAction]. *)
Definition dispatched (l : list Effect) : list Payload :=
  omap (λ e, match e with ExecuteAction p => Some p | _ => None end) l.

(** The history mutations, [pushState] and [replaceState] calls. *)
Definition is_mutation (e : Effect) : bool :=
  match e with PushState _ _ _ | ReplaceState _ _ _ => true | _ => false end.
Definition mutations (l : list Effect) : list Effect := filter is_mutation l.

Definition is_pushState (e : Effect) : bool :=
  match e with PushState _ _ _ => true | _ => false end.

(** The uses of the before-unload confirmation: calls of the callback and
    prompts. *)
Definition is_consultation (e : Effect) : bool :=
  match e with CallOnBeforeUnload | Confirm _ => true | _ => false end.
Definition consultations (l : list Effect) : list Effect :=
  filter is_consultation l.

(** ** The notions the properties are stated with *)

(** [isPageloadPopstate], as [_onHistoryChange] computes it: the event is
    the spurious popstate of a page load and is discarded. *)
Definition suppressed (e : Event) (w : World) : bool :=
  _ignorePageLoadPopstate (this w)
  && is_null (ev_state e) && truthy (getState (history w)).

(** [currentRoute.url] with [currentRoute = props.currentRoute || {}]. *)
Definition currentUrl (w : World) : option string :=
  route_url (default emptyRoute (currentRoute (props (this w)))).

(** [props.currentNavigate || {}] *)
Definition nav_of (w : World) : Navigate :=
  default emptyNavigate (currentNavigate (props (this w))).

(** Confirmation is granted when no prompt is shown (no callback, a callback
    that throws or returns no text) or the user accepts the prompt. *)
Definition granted (w : World) : Prop :=
  ∀ text, onbeforeunload (window w) = Some (Returns (Some text)) →
          text ≠ "" → confirm_answer (window w) text = true.

(** The text [_onHistoryChange] ends up with in [onBeforeUnloadText], the
    calls made to obtain it and to prompt, and [confirmResult]. *)
Definition unload_text (w : World) : option string :=
  match onbeforeunload (window w) with
  | Some (Returns text) => text
  | Some (Throws _) | None => Some ""
  end.

Definition consulting (w : World) : list Effect :=
  match onbeforeunload (window w) with
  | Some (Returns text) =>
      CallOnBeforeUnload
      :: (if truthy_text text then [Confirm (default "" text)] else [])
  | Some (Throws error) =>
      [CallOnBeforeUnload;
       ConsoleWarn "Warning: Call of window.onbeforeunload failed" error]
  | None => []
  end.

Definition confirmResult (w : World) : bool :=
  if truthy_text (unload_text w)
  then confirm_answer (window w) (default "" (unload_text w))
  else true.

(** The state [_onHistoryChange] builds from the current descriptor. *)
Definition denial_state (options : Options) (w : World) : HistoryState :=
  mkHistoryState (Some (default ∅ (nav_query (nav_of w))))
                 (Some (default ∅ (nav_params (nav_of w))))
                 (if saveScrollInState options
                  then Some (current_scroll (window w)) else None).

(** The payload of the popstate navigation for the event [e]. *)
Definition popstate_payload (e : Event) (w : World) : Payload :=
  {| p_type := TYPE_POPSTATE;
     p_url := getUrl (history w);
     p_params := ev_state e ≫= st_params;
     p_query := ev_state e ≫= st_query |}.

(** The world with [es] appended to its log. *)
Definition records (es : list Effect) (w : World) : World :=
  {| window := window w; history := history w; this := this w;
     HAS_PUSH_STATE := HAS_PUSH_STATE w;
     lastPendingPopstateEvent := lastPendingPopstateEvent w;
     log := log w ++ es |}.

(** [nav.type || TYPE_DEFAULT], the type [componentDidUpdate] switches on. *)
Definition navType (w : World) : string :=
  or_text (nav_type (nav_of w)) TYPE_DEFAULT.

(** The types of the first [case] group of [componentDidUpdate]. *)
Definition mutating_type (t : string) : Prop :=
  t = TYPE_CLICK ∨ t = TYPE_DEFAULT ∨ t = TYPE_REPLACESTATE.

(** The state [componentDidUpdate] builds from the descriptor. *)
Definition sync_state (options : Options) (w : World) : HistoryState :=
  mkHistoryState
    (Some (default ∅ (nav_query (nav_of w))))
    (Some (default ∅ (nav_params (nav_of w))))
    (if saveScrollInState options
     then Some (if nav_preserveScrollPosition (nav_of w)
                then current_scroll (window w)
                else mkScroll (Some 0%Z) (Some 0%Z))
     else None).

(** The scroll offset stored in the current history entry, [{}] when the
    entry has no state or the state has no [scroll]. *)
Definition stored_scroll (w : World) : Scroll :=
  default (mkScroll None None)
          (st_scroll (default emptyState (getState (history w)))).

(** The application state changed: the component is given the descriptor
    [nav] as [props.currentNavigate]. *)
Definition receive (nav : Navigate) (w : World) : World :=
  with_this (set_props (mkProps (currentRoute (props (this w))) (Some nav))) w.

(** The user moves the viewport to [(x, y)]. *)
Definition scrolled_to (x y : Z) (w : World) : World :=
  with_window (set_viewport x y) w.

(** ** Timers and the life of a mounted component *)

(** [d] time units pass and [ps] are the timers still pending. *)
Definition tick (d : nat) (ps : list Timer) (w : World) : World :=
  with_window (λ win, set_timers (now win + d) ps (next_timer win) win) w.

(** [_onScroll] is registered for scroll events. *)
Definition listening (w : World) : Prop :=
  bound_onScroll ∈ scroll_listeners (window w).

(** At most one timer is pending, and [this._scrollTimer] is its handle. *)
Definition one_timer (w : World) : Prop :=
  match pending (window w) with
  | [] => True
  | [t] => _scrollTimer (this w) = Some (timer_id t)
  | _ => False
  end.

(** A scroll event, [after] time units after what came before it. *)
Record ScrollEvent := mkScrollEvent {
  after : nat;
  to_x : Z;
  to_y : Z;
}.

(** A run of scroll events, each preceded by the time that passes before it
    (timers due in that time fire). *)
Fixpoint burst (evs : list ScrollEvent) : JS unit :=
  match evs with
  | [] => skip
  | ev :: evs =>
      elapse (after ev);; scroll_event (to_x ev) (to_y ev);; burst evs
  end.

(** The offset of the last event of a run that starts at [(x, y)]. *)
Fixpoint last_offset (x y : Z) (evs : list ScrollEvent) : Z * Z :=
  match evs with
  | [] => (x, y)
  | ev :: evs => last_offset (to_x ev) (to_y ev) evs
  end.

(** What can happen to a mounted component: a scroll event; time passing; a
    popstate event after the native history has moved to other entries; new
    props followed by [componentDidUpdate]; the page installing a
    before-unload callback; unmounting. *)
Inductive step (options : Options) : World → World → Prop :=
| step_scroll x y w :
    step options w (exec (scroll_event x y) w)
| step_elapse d w :
    step options w (exec (elapse d) w)
| step_popstate entry below e w :
    step options w
      (exec (popstate_event options e)
            (with_history (λ h, mkHistory entry below (listeners h)) w))
| step_update p w :
    step options w
      (exec (componentDidUpdate options) (with_this (set_props p) w))
| step_page hook w :
    step options w (with_window (set_onbeforeunload hook) w)
| step_unmount w :
    step options w (exec (componentWillUnmount options) w).

(** The worlds a component mounted in [w0] can be in. *)
Definition reachable (options : Options) (w0 w : World) : Prop :=
  rtc (step options) (exec (componentDidMount options) w0) w.

(** What [_onScroll] clears and what it leaves pending. *)
Definition cleared (w : World) : list Effect :=
  match _scrollTimer (this w) with Some id => [ClearTimeout id] | None => [] end.
Definition kept (w : World) : list Timer :=
  match _scrollTimer (this w) with
  | Some id => without_timer id (pending (window w))
  | None => pending (window w)
  end.

(** The world [_onScroll] leaves behind. *)
Definition rearmed (w : World) : World :=
  let id := next_timer (window w) in
  with_this (set_scrollTimer (Some id))
    (with_window
       (λ win, set_timers (now win)
                 (kept w ++ [mkTimer id (now win + 150)]) (Pos.succ id) win)
       (records (cleared w ++ [SetTimeout id 150]) w)).

(** The timers and [this._scrollTimer] are the same in [w] and [w']. *)
Definition same_timers (w w' : World) : Prop :=
  pending (window w') = pending (window w)
  ∧ _scrollTimer (this w') = _scrollTimer (this w).

(** The component listens, the timer armed by the last scroll event is due
    150 time units from now, and the viewport is at [(x, y)]. *)
Definition armed (x y : Z) (w : World) : Prop :=
  listening w
  ∧ (∃ id, pending (window w) = [mkTimer id (now (window w) + 150)]
           ∧ _scrollTimer (this w) = Some id)
  ∧ current_scroll (window w) = mkScroll (Some x) (Some y).

(** ** A concrete page, for examples *)

Definition example_window : Window :=
  {| scrollX := 0; pageXOffset := 0; scrollY := 0; pageYOffset := 0;
     onbeforeunload := None;
     confirm_answer := λ _, true;
     now := 0; pending := []; next_timer := 1;
     scroll_listeners := []; popstate_listeners := [] |}.

Definition example_history (url : string) (state : option HistoryState)
    : History :=
  {| current := mkEntry state None url; earlier := []; listeners := [] |}.

Definition example_world (url : string) (state : option HistoryState)
    (ignore : bool) (p : Props) (win : Window) : World :=
  {| window := win;
     history := example_history url state;
     this := {| props := p; _ignorePageLoadPopstate := ignore;
                _scrollTimer := None |};
     HAS_PUSH_STATE := true;
     lastPendingPopstateEvent := None;
     log := [] |}.

(** The application is at [/item/0] with nothing to navigate to. *)
Definition at_item_0 : Props :=
  {| currentRoute := Some (mkRoute (Some "/item/0"));
     currentNavigate := None |}.

(** A page whose before-unload callback is [hook] and whose user gives
    [answer] to every prompt. *)
Definition guarded_window (hook : UnloadHook) (answer : bool) : Window :=
  {| scrollX := 0; pageXOffset := 0; scrollY := 0; pageYOffset := 0;
     onbeforeunload := Some hook;
     confirm_answer := λ _, answer;
     now := 0; pending := []; next_timer := 1;
     scroll_listeners := []; popstate_listeners := [] |}.

(** ** The rest of the module: options, buffered events, the mount *)

(** The [opts] argument of [handleHistory]: an object in which any key may
    be missing. *)
Record Opts := mkOpts {
  opt_checkRouteOnPageLoad     : option bool;
  opt_enableScroll             : option bool;
  opt_saveScrollInState        : option bool;
  opt_ignorePopstateOnPageLoad : option BoolOrFn;
}.

(** [var options = Object.assign({}, defaultOptions, opts)]; [opts] itself
    may be missing. *)
Definition handleHistory_options (opts : option Opts) : Options :=
  match opts with
  | None => defaultOptions
  | Some o =>
      {| checkRouteOnPageLoad :=
           default (checkRouteOnPageLoad defaultOptions)
                   (opt_checkRouteOnPageLoad o);
         enableScroll :=
           default (enableScroll defaultOptions) (opt_enableScroll o);
         saveScrollInState :=
           default (saveScrollInState defaultOptions)
                   (opt_saveScrollInState o);
         ignorePopstateOnPageLoad :=
           default (ignorePopstateOnPageLoad defaultOptions)
                   (opt_ignorePopstateOnPageLoad o) |}
  end.

(** Popstate events delivered one after the other. *)
Fixpoint popstate_events (options : Options) (es : list Event) : JS unit :=
  match es with
  | [] => skip
  | e :: es => popstate_event options e;; popstate_events options es
  end.

(** The calls [componentDidMount] makes before it subscribes: the state it
    seeds and the pageload navigation it asks for. *)
Definition mount_seed (options : Options) (w : World) : list Effect :=
  if shouldIgnorePopstateOnPageLoad options && is_null (getState (history w))
  then [ReplaceState emptyState None None]
  else [].

Definition pageload_payload (w : World) : Payload :=
  {| p_type := TYPE_PAGELOAD; p_url := getUrl (history w);
     p_params := None; p_query := None |}.

Definition mount_pageload (options : Options) (w : World) : list Effect :=
  if checkRouteOnPageLoad options
     && bool_decide (Some (getUrl (history w))
                     ≠ currentRoute (props (this w)) ≫= route_url)
  then [ExecuteAction (pageload_payload w)]
  else [].

(** The history after the seeding step of [componentDidMount]. *)
Definition mount_seeded (options : Options) (h : History) : History :=
  if shouldIgnorePopstateOnPageLoad options && is_null (getState h)
  then replaceState emptyState None None h
  else h.

(** The world right after [this._history.on(this._onHistoryChange)]. *)
Definition mount_subscribed (options : Options) (w : World) : World :=
  with_history (λ h, on bound_onHistoryChange (mount_seeded options h))
    (with_this (λ i, set_scrollTimer None
                       (set_ignorePageLoadPopstate
                          (shouldIgnorePopstateOnPageLoad options) i))
       (records (mount_seed options w ++ mount_pageload options w) w)).

(** The replay of the buffered event, and the scroll subscription. *)
Definition mount_replay (options : Options) (v : World) : World :=
  if HAS_PUSH_STATE v then
    let v1 := exec (window_removePopstateListener preloadListener) v in
    match lastPendingPopstateEvent v with
    | Some e => with_lastPending None (exec (_onHistoryChange options e) v1)
    | None => v1
    end
  else v.

Definition mount_listen (options : Options) (v : World) : World :=
  if saveScrollInState options
  then exec (window_addScrollListener bound_onScroll) v
  else v.

(** ** More concrete pages, for examples *)

Definition example_event : Event :=
  mkEvent (Some (mkHistoryState (Some ∅) (Some {[ "id" := "1" ]}) None)).

Definition buffered_world (e : Event) : World :=
  with_lastPending (Some e)
    (example_world "/item/1" None false at_item_0 example_window).

Definition preloading_world : World :=
  exec module_load
    (example_world "/item/1" None false at_item_0 example_window).

Definition ignoring_options : Options :=
  handleHistory_options
    (Some (mkOpts (Some true) None None (Some (IsFunction true)))).

(** * Properties *)

(** ** Tactics and lemmas on the log *)

Ltac destruct_world w :=
  destruct w as [[w_sx w_px w_sy w_py w_hook w_answer w_now w_pending
                    w_next w_scroll_ls w_popstate_ls]
                 [w_entry w_below w_ls] [w_props w_ignore w_timer]
                 w_hps w_buffered w_log].

Lemma dispatched_app l1 l2 :
  dispatched (l1 ++ l2) = dispatched l1 ++ dispatched l2.
Proof. apply omap_app. Qed.

Lemma mutations_app l1 l2 :
  mutations (l1 ++ l2) = mutations l1 ++ mutations l2.
Proof. apply filter_app. Qed.

Lemma dispatched_consulting w : dispatched (consulting w) = [].
Proof.
  unfold consulting.
  destruct (onbeforeunload (window w)) as [[t|err]|]; [|done..].
  by destruct (truthy_text t).
Qed.

Lemma mutations_consulting w : mutations (consulting w) = [].
Proof.
  unfold consulting.
  destruct (onbeforeunload (window w)) as [[t|err]|]; [|done..].
  by destruct (truthy_text t).
Qed.

Lemma truthy_text_Some text : truthy_text (Some text) = true ↔ text ≠ "".
Proof. simpl. apply bool_decide_eq_true. Qed.

Lemma granted_confirmResult w : granted w → confirmResult w = true.
Proof.
  unfold granted, confirmResult, unload_text. intros Hg.
  destruct (onbeforeunload (window w)) as [[[text|]|err]|]; try done.
  destruct (truthy_text (Some text)) eqn:Ht; [|done].
  apply Hg; [done|]. by apply truthy_text_Some.
Qed.

(** ** What [_onHistoryChange] does, case by case *)

Lemma onHistoryChange_outcome options e w :
  _onHistoryChange options e w =
  (Normal tt,
   if suppressed e w then w
   else
     let title := pageTitle_of (default ∅ (nav_params (nav_of w))) in
     if negb (confirmResult w) then
       with_history (pushState (denial_state options w) title (currentUrl w))
         (records (consulting w
                   ++ [PushState (denial_state options w) title (currentUrl w)]) w)
     else if bool_decide (Some (getUrl (history w)) ≠ currentUrl w) then
       with_window (set_onbeforeunload None)
         (records (consulting w ++ [ExecuteAction (popstate_payload e w)]) w)
     else records (consulting w) w).
Proof.
  destruct_world w.
  unfold _onHistoryChange, suppressed, confirmResult, unload_text, consulting,
    denial_state, popstate_payload, currentUrl, nav_of, records,
    bind, try_catch, history_getState, history_getUrl, call_onbeforeunload,
    console_warn, window_confirm, history_pushState, executeAction,
    skip, gets, modify, value, record, with_window, with_history.
  cbn.
  repeat (case_match; simplify_eq/=);
    rewrite ?app_nil_r, <- ?app_assoc; done.
Qed.

(** The handler always completes normally. *)
Lemma onHistoryChange_completes options e w :
  (_onHistoryChange options e w).1 = Normal tt.
Proof. by rewrite onHistoryChange_outcome. Qed.

(** ** Step 1: suppression of the popstate fired on page load *)

Lemma suppressed_discards options e w :
  suppressed e w = true → _onHistoryChange options e w = (Normal tt, w).
Proof.
  unfold suppressed, _onHistoryChange, bind, gets, history_getState.
  destruct (_ignorePageLoadPopstate (this w)); simpl; [|done].
  intros ->. done.
Qed.

(** C1. With [_ignorePageLoadPopstate] set, an event whose [state] is
    [null] while the history's [getState()] is not [null] is discarded: the
    handler returns at once and leaves the world as it was, the log
    included, so nothing is dispatched, the history is not mutated, and
    neither the before-unload callback nor the confirm prompt is used. *)
Theorem pageload_popstate_is_discarded options (e : Event) (w : World) :
  _ignorePageLoadPopstate (this w) = true →
  ev_state e = None →
  getState (history w) ≠ None →
  _onHistoryChange options e w = (Normal tt, w)
  ∧ dispatched (log (exec (_onHistoryChange options e) w)) = dispatched (log w)
  ∧ mutations (log (exec (_onHistoryChange options e) w)) = mutations (log w)
  ∧ history (exec (_onHistoryChange options e) w) = history w
  ∧ consultations (log (exec (_onHistoryChange options e) w))
    = consultations (log w).
Proof.
  intros Hflag Hnull Hstate.
  assert (_onHistoryChange options e w = (Normal tt, w)) as Heq.
  { apply suppressed_discards. unfold suppressed.
    rewrite Hflag, Hnull. simpl.
    destruct (getState (history w)); done. }
  unfold exec. rewrite Heq. done.
Qed.

Lemma pageload_popstate_is_discarded_witness :
  let w := example_world "/item/1" (Some emptyState) true at_item_0
             example_window in
  _onHistoryChange defaultOptions (mkEvent None) w = (Normal tt, w).
Proof.
  intros w.
  apply (pageload_popstate_is_discarded defaultOptions (mkEvent None) w);
    [reflexivity | reflexivity | simpl; discriminate].
Defined.

(** *** The mount seeds the state the detector relies on *)

Lemma onHistoryChange_keeps_flag_and_state options e w :
  let w' := exec (_onHistoryChange options e) w in
  _ignorePageLoadPopstate (this w') = _ignorePageLoadPopstate (this w)
  ∧ (getState (history w) ≠ None → getState (history w') ≠ None).
Proof.
  intros w'. subst w'. unfold exec. rewrite onHistoryChange_outcome.
  cbn zeta. repeat case_match; done.
Qed.

(** [componentDidMount] caches the option in [this._ignorePageLoadPopstate]
    and, when it is set, leaves the history with a state that is not
    [null] (it writes [{}] when there is none). *)
Lemma mount_caches_flag_and_seeds_state options w :
  let w' := exec (componentDidMount options) w in
  _ignorePageLoadPopstate (this w') = shouldIgnorePopstateOnPageLoad options
  ∧ (shouldIgnorePopstateOnPageLoad options = true →
       getState (history w') ≠ None).
Proof.
  destruct_world w.
  unfold exec, componentDidMount,
    history_getState, history_getUrl, history_replaceState, history_on,
    executeAction, window_removePopstateListener, window_addScrollListener,
    skip, bind, gets, modify, value.
  cbn -[_onHistoryChange].
  repeat (case_match; simplify_eq/=); try done.
  all: try match goal with
       | H : _onHistoryChange ?o ?e ?W = (_, ?w') |- _ =>
           pose proof (onHistoryChange_keeps_flag_and_state o e W) as Ht;
           unfold exec in Ht; rewrite H in Ht; cbn in Ht;
           destruct Ht as [Hflag Hstate]
       end.
  all: (split; [congruence|]); intros ?; try discriminate; try apply Hstate;
    try done.
  all: unfold getState in *; cbn in *; by destruct (entry_state w_entry).
Qed.

(** So with the option set, a popstate event with a [null] state that
    arrives right after the mount is discarded. *)
Lemma pageload_popstate_after_mount options w :
  shouldIgnorePopstateOnPageLoad options = true →
  let w' := exec (componentDidMount options) w in
  _onHistoryChange options (mkEvent None) w' = (Normal tt, w').
Proof.
  intros Hignore w'.
  destruct (mount_caches_flag_and_seeds_state options w) as [Hflag Hstate].
  apply suppressed_discards. unfold suppressed. fold w' in Hflag, Hstate.
  rewrite Hflag, Hignore. cbn.
  specialize (Hstate Hignore). by destruct (getState (history w')).
Qed.

(** ** Step 3b: confirmation granted *)

(** C3. For an event that is not suppressed and with confirmation granted:
    when the history's [getUrl()] differs from the current route's url, the
    handler sets [window.onbeforeunload] to [null] and dispatches exactly one
    navigation action, of type popstate, with that url and with the params
    and query of the event's state (absent when the event has no state);
    when the two urls are equal nothing is dispatched.  In both cases the
    history is left as it was. *)
Theorem granted_popstate_dispatches_once options (e : Event) (w : World) :
  suppressed e w = false →
  granted w →
  let w' := exec (_onHistoryChange options e) w in
  (Some (getUrl (history w)) ≠ currentUrl w →
     onbeforeunload (window w') = None
     ∧ dispatched (log w')
       = dispatched (log w)
         ++ [ {| p_type := "popstate";
                 p_url := getUrl (history w);
                 p_params := ev_state e ≫= st_params;
                 p_query := ev_state e ≫= st_query |} ])
  ∧ (Some (getUrl (history w)) = currentUrl w →
     dispatched (log w') = dispatched (log w) ∧ window w' = window w)
  ∧ mutations (log w') = mutations (log w)
  ∧ history w' = history w.
Proof.
  intros Hs Hg w'. subst w'. unfold exec.
  rewrite onHistoryChange_outcome, Hs, granted_confirmResult by done.
  cbn -[dispatched mutations].
  case_bool_decide as Hurl; cbn -[dispatched mutations];
    rewrite ?dispatched_app, ?mutations_app,
            ?dispatched_consulting, ?mutations_consulting, ?app_nil_r;
    (split; [intros ?|split; [intros ?|]]); try done.
Qed.

Lemma granted_popstate_dispatches_once_witness :
  let e := mkEvent (Some (mkHistoryState (Some ∅)
                            (Some {[ "id" := "1" ]}) None)) in
  let w := example_world "/item/1" (Some emptyState) false at_item_0
             example_window in
  dispatched (log (exec (_onHistoryChange defaultOptions e) w))
  = [ {| p_type := "popstate"; p_url := "/item/1";
         p_params := Some {[ "id" := "1" ]}; p_query := Some ∅ |} ].
Proof.
  intros e w.
  refine (proj2 (proj1
    (granted_popstate_dispatches_once defaultOptions e w _ _) _)).
  - reflexivity.
  - intros text Hhook. simpl in Hhook. discriminate.
  - simpl. discriminate.
Defined.

(** ** Step 3a: confirmation denied *)

(** C4. For an event that is not suppressed, when the before-unload callback
    returns a non-empty text and the user refuses the prompt, the handler
    calls the callback, prompts once, and calls [pushState] exactly once,
    with the url of the current (pre-navigation) route; it dispatches
    nothing.  With a current route that has a url, the history's url is that
    url again afterwards. *)
Theorem denied_popstate_pushes_current_url options (e : Event) (w : World)
    (text : string) :
  suppressed e w = false →
  onbeforeunload (window w) = Some (Returns (Some text)) →
  text ≠ "" →
  confirm_answer (window w) text = false →
  let w' := exec (_onHistoryChange options e) w in
  let historyState := denial_state options w in
  let pageTitle := pageTitle_of (default ∅ (nav_params (nav_of w))) in
  log w' = log w ++ [CallOnBeforeUnload; Confirm text;
                     PushState historyState pageTitle (currentUrl w)]
  ∧ mutations (log w')
    = mutations (log w) ++ [PushState historyState pageTitle (currentUrl w)]
  ∧ dispatched (log w') = dispatched (log w)
  ∧ history w' = pushState historyState pageTitle (currentUrl w) (history w)
  ∧ (∀ url, currentUrl w = Some url → getUrl (history w') = url).
Proof.
  intros Hs Hhook Htext Hno w' st title. subst w'. unfold exec.
  rewrite onHistoryChange_outcome, Hs.
  assert (truthy_text (Some text) = true) as Ht by by apply truthy_text_Some.
  assert (confirmResult w = false) as ->.
  { unfold confirmResult, unload_text. rewrite Hhook, Ht. done. }
  assert (consulting w = [CallOnBeforeUnload; Confirm text]) as ->.
  { unfold consulting. rewrite Hhook, Ht. done. }
  cbn -[dispatched mutations].
  rewrite dispatched_app, mutations_app. cbn.
  rewrite !app_nil_r. repeat split; try done.
  intros url ->. done.
Qed.

Lemma denied_popstate_pushes_current_url_witness :
  let w := example_world "/item/1" (Some emptyState) false at_item_0
             (guarded_window (Returns (Some "Leave?")) false) in
  log (exec (_onHistoryChange defaultOptions (mkEvent None)) w)
  = [CallOnBeforeUnload; Confirm "Leave?";
     PushState (mkHistoryState (Some ∅) (Some ∅)
                  (Some (mkScroll (Some 0%Z) (Some 0%Z))))
               None (Some "/item/0")].
Proof.
  intros w.
  refine (proj1 (denied_popstate_pushes_current_url defaultOptions
                   (mkEvent None) w "Leave?" _ _ _ _)).
  - reflexivity.
  - reflexivity.
  - discriminate.
  - reflexivity.
Defined.

(** ** Step 2: a before-unload callback that throws *)

(** C5. When the registered before-unload callback throws, the call itself
    completes with the error, but the handler catches it: it completes
    normally, logs a warning with the error, shows no prompt, and goes on as
    with confirmation granted: it dispatches the popstate navigation and
    clears the callback when the urls differ, does nothing more when they are
    equal, and never mutates the history.  (A suppressed event returns
    before the callback is called.) *)
Theorem throwing_callback_is_caught options (e : Event) (w : World)
    (error : string) :
  onbeforeunload (window w) = Some (Throws error) →
  let w' := exec (_onHistoryChange options e) w in
  (call_onbeforeunload (Throws error) w).1 = Throw error
  ∧ (_onHistoryChange options e w).1 = Normal tt
  ∧ granted w
  ∧ (suppressed e w = true → w' = w)
  ∧ (suppressed e w = false →
     log w'
     = log w
       ++ [CallOnBeforeUnload;
           ConsoleWarn "Warning: Call of window.onbeforeunload failed" error]
       ++ (if bool_decide (Some (getUrl (history w)) ≠ currentUrl w)
           then [ExecuteAction
                   {| p_type := "popstate";
                      p_url := getUrl (history w);
                      p_params := ev_state e ≫= st_params;
                      p_query := ev_state e ≫= st_query |}]
           else [])
     ∧ onbeforeunload (window w')
       = (if bool_decide (Some (getUrl (history w)) ≠ currentUrl w)
          then None else Some (Throws error))
     ∧ history w' = history w).
Proof.
  intros Hhook w'. subst w'. unfold exec.
  assert (granted w) as Hg.
  { intros text Hret. rewrite Hhook in Hret. discriminate. }
  split; [done|]. split; [apply onHistoryChange_completes|].
  split; [done|].
  rewrite onHistoryChange_outcome, granted_confirmResult by done.
  assert (consulting w =
    [CallOnBeforeUnload;
     ConsoleWarn "Warning: Call of window.onbeforeunload failed" error]) as ->.
  { unfold consulting. by rewrite Hhook. }
  split; intros ->; [done|]. cbn.
  case_bool_decide; cbn; rewrite ?app_nil_r; done.
Qed.

Lemma throwing_callback_is_caught_witness :
  let w := example_world "/item/1" (Some emptyState) false at_item_0
             (guarded_window (Throws "boom") false) in
  (_onHistoryChange defaultOptions (mkEvent None) w).1 = Normal tt.
Proof.
  intros w.
  refine (proj1 (proj2 (throwing_callback_is_caught defaultOptions
                          (mkEvent None) w "boom" _))).
  reflexivity.
Defined.

(** ** What [componentDidUpdate] does, case by case *)

Lemma componentDidUpdate_outcome options w :
  componentDidUpdate options w =
  (Normal tt,
   let nav := nav_of w in
   if bool_decide (mutating_type (navType w)) then
     if bool_decide (nav_url nav = Some (getUrl (history w))) then w
     else
       let w1 :=
         if nav_preserveScrollPosition nav then w
         else if enableScroll options
              then record (ScrollTo 0 0) (scrolled_to 0 0 w)
              else w in
       let state := sync_state options w in
       let title := pageTitle_of (default ∅ (nav_params nav)) in
       if bool_decide (navType w = TYPE_REPLACESTATE)
       then record (ReplaceState state title (nav_url nav))
              (with_history (replaceState state title (nav_url nav)) w1)
       else record (PushState state title (nav_url nav))
              (with_history (pushState state title (nav_url nav)) w1)
   else if bool_decide (navType w = TYPE_POPSTATE) then
     if enableScroll options then
       let x := or_zero (scroll_x (stored_scroll w)) in
       let y := or_zero (scroll_y (stored_scroll w)) in
       record (ScrollTo x y) (scrolled_to x y w)
     else w
   else w).
Proof.
  destruct_world w.
  unfold componentDidUpdate, navType, mutating_type, sync_state,
    stored_scroll, scrolled_to, nav_of, bind,
    history_getState, history_getUrl, history_pushState,
    history_replaceState, window_scrollTo,
    skip, gets, modify, value, record, with_window, with_history.
  cbn.
  repeat (case_match; simplify_eq/=); done.
Qed.

Lemma or_zero_default x : or_zero x = default 0%Z x.
Proof.
  destruct x as [v|]; [|done]. unfold or_zero, or_num. by case_decide.
Qed.

Lemma or_num_same x : or_num x x = x.
Proof. unfold or_num. by case_decide. Qed.

(** ** Outbound sync: the url-equality guard *)

Lemma sync_guard_outcome options w :
  mutating_type (navType w) →
  nav_url (nav_of w) = Some (getUrl (history w)) →
  componentDidUpdate options w = (Normal tt, w).
Proof.
  intros Htype Hurl. rewrite componentDidUpdate_outcome. cbn zeta.
  rewrite bool_decide_eq_true_2 by done.
  by rewrite bool_decide_eq_true_2 by done.
Qed.

(** Past the guard, a descriptor of one of the three types is applied to the
    history, after the viewport has been reset where that is asked for. *)
Lemma sync_mutation_outcome options nav w :
  let t := or_text (nav_type nav) TYPE_DEFAULT in
  mutating_type t →
  nav_url nav ≠ Some (getUrl (history w)) →
  let w0 := receive nav w in
  let w1 :=
    if nav_preserveScrollPosition nav then w0
    else if enableScroll options
         then record (ScrollTo 0 0) (scrolled_to 0 0 w0)
         else w0 in
  let state := sync_state options w0 in
  let title := pageTitle_of (default ∅ (nav_params nav)) in
  exec (componentDidUpdate options) w0
  = if bool_decide (t = TYPE_REPLACESTATE)
    then record (ReplaceState state title (nav_url nav))
           (with_history (replaceState state title (nav_url nav)) w1)
    else record (PushState state title (nav_url nav))
           (with_history (pushState state title (nav_url nav)) w1).
Proof.
  intros t Ht Hurl w0 w1 state title. unfold exec.
  rewrite componentDidUpdate_outcome. cbv zeta.
  change (navType w0) with t. change (nav_of w0) with nav.
  change (history w0) with (history w).
  rewrite bool_decide_eq_true_2 by done.
  by rewrite bool_decide_eq_false_2 by done.
Qed.

Lemma mutating_type_cases type :
  type = None ∨ type = Some "default" ∨ type = Some "click" →
  let t := or_text type TYPE_DEFAULT in
  mutating_type t ∧ t ≠ TYPE_REPLACESTATE.
Proof.
  intros [-> | [-> | ->]]; (split; [|done]);
    [right; left | right; left | left]; reflexivity.
Qed.

(** C2. For a descriptor of type click, default or replacestate (a
    descriptor without a type counts as default) whose url is the history's
    current [getUrl()], [componentDidUpdate] returns at once and leaves the
    world as it was: no [pushState] or [replaceState], no dispatch, no
    [scrollTo] and the viewport where it was. *)
Theorem sync_to_current_url_is_noop options (w : World) :
  mutating_type (navType w) →
  nav_url (nav_of w) = Some (getUrl (history w)) →
  componentDidUpdate options w = (Normal tt, w)
  ∧ log (exec (componentDidUpdate options) w) = log w
  ∧ history (exec (componentDidUpdate options) w) = history w
  ∧ window (exec (componentDidUpdate options) w) = window w.
Proof.
  intros Htype Hurl. unfold exec.
  by rewrite sync_guard_outcome.
Qed.

Lemma sync_to_current_url_is_noop_witness :
  let nav := mkNavigate (Some "click") (Some "/a") None None false in
  let w := receive nav (scrolled_to 5 7
             (example_world "/a" None false at_item_0 example_window)) in
  componentDidUpdate defaultOptions w = (Normal tt, w).
Proof.
  intros nav w.
  refine (proj1 (sync_to_current_url_is_noop defaultOptions w _ _)).
  - left. reflexivity.
  - reflexivity.
Defined.

(** ** Outbound sync: a descriptor without a type *)

(** C10. A descriptor without a [type] is handled as one of type default,
    which is handled as click: the three leave the same window, history and
    log.  Under the url-equality guard nothing happens; otherwise the state
    built from the descriptor's params and query (empty when missing) is
    applied with [pushState], which puts a new entry on top of the current
    one. *)
Theorem missing_type_is_default options (w : World)
    (url : option string) (params query : option Params) (preserve : bool) :
  let nav type := mkNavigate type url params query preserve in
  let sync type := exec (componentDidUpdate options) (receive (nav type) w) in
  let state :=
    mkHistoryState (Some (default ∅ query)) (Some (default ∅ params))
      (if saveScrollInState options
       then Some (if preserve then current_scroll (window w)
                  else mkScroll (Some 0%Z) (Some 0%Z))
       else None) in
  let title := pageTitle_of (default ∅ params) in
  (∀ type, type = Some "default" ∨ type = Some "click" →
     window (sync None) = window (sync type)
     ∧ history (sync None) = history (sync type)
     ∧ log (sync None) = log (sync type))
  ∧ (url = Some (getUrl (history w)) → sync None = receive (nav None) w)
  ∧ (url ≠ Some (getUrl (history w)) →
       log (sync None)
       = log w ++ (if preserve || negb (enableScroll options)
                   then [] else [ScrollTo 0 0])
               ++ [PushState state title url]
       ∧ history (sync None) = pushState state title url (history w)
       ∧ earlier (history (sync None))
         = current (history w) :: earlier (history w)
       ∧ depth (history (sync None)) = S (depth (history w))).
Proof.
  intros nav sync state title. subst sync nav. cbv beta.
  split; [|split].
  - intros type Htype.
    assert (type = None ∨ type = Some "default" ∨ type = Some "click")
      as Ht by tauto.
    apply mutating_type_cases in Ht as [Ht Hnr].
    destruct (decide (url = Some (getUrl (history w)))) as [Hurl|Hurl].
    + unfold exec. rewrite !sync_guard_outcome; try done.
      by right; left.
    + rewrite !sync_mutation_outcome; try done; [|by right; left].
      cbn [nav_type]. rewrite (bool_decide_eq_false_2 _ Hnr).
      by destruct preserve, (enableScroll options).
  - intros Hurl. unfold exec. rewrite sync_guard_outcome; try done.
    by right; left.
  - intros Hurl. rewrite sync_mutation_outcome; [|by right; left|done].
    cbn [nav_type or_text].
    rewrite (bool_decide_eq_false_2 (TYPE_DEFAULT = TYPE_REPLACESTATE))
      by done.
    destruct preserve, (enableScroll options); cbn;
      rewrite <- ?app_assoc; done.
Qed.

Lemma missing_type_is_default_witness :
  let w := scrolled_to 5 7
             (example_world "/a" None false at_item_0 example_window) in
  let nav := mkNavigate None (Some "/b") None None false in
  log (exec (componentDidUpdate defaultOptions) (receive nav w))
  = [ScrollTo 0 0;
     PushState (mkHistoryState (Some ∅) (Some ∅)
                  (Some (mkScroll (Some 0%Z) (Some 0%Z))))
               None (Some "/b")].
Proof.
  intros w nav.
  refine (proj1 (proj2 (proj2
    (missing_type_is_default defaultOptions w (Some "/b") None None false))
    _)).
  simpl. discriminate.
Defined.

(** ** Outbound sync: the scroll round trip *)

Lemma sync_popstate_outcome options w :
  enableScroll options = true →
  navType w = TYPE_POPSTATE →
  let x := default 0%Z (scroll_x (stored_scroll w)) in
  let y := default 0%Z (scroll_y (stored_scroll w)) in
  exec (componentDidUpdate options) w
  = record (ScrollTo x y) (scrolled_to x y w).
Proof.
  intros Hscroll Htype x y. unfold exec.
  rewrite componentDidUpdate_outcome, Htype, Hscroll. cbn zeta.
  rewrite bool_decide_eq_false_2.
  - rewrite bool_decide_eq_true_2 by done. cbn [snd].
    by rewrite !or_zero_default.
  - by intros [? | [? | ?]].
Qed.

(** C6 as stated, without the url-equality guard, fails: with the default
    options (scroll reset and scroll persistence on), a click sync with
    [preserveScrollPosition] off to the url the history is already at
    changes nothing.  The viewport stays at [(5, 7)], no [scrollTo] is
    called, the entry's state keeps the offset it had, and the popstate
    sync that follows scrolls to that offset, [(5, 7)], not to [(0, 0)]. *)
Lemma sync_to_same_url_keeps_viewport :
  let state := mkHistoryState None None
                 (Some (mkScroll (Some 5%Z) (Some 7%Z))) in
  let w := scrolled_to 5 7
             (example_world "/a" (Some state) false at_item_0 example_window) in
  let nav := mkNavigate (Some "click") (Some "/a") None None false in
  let nav' := mkNavigate (Some "popstate") (Some "/a") None None false in
  let w1 := exec (componentDidUpdate defaultOptions) (receive nav w) in
  let w2 := exec (componentDidUpdate defaultOptions) (receive nav' w1) in
  enableScroll defaultOptions = true
  ∧ saveScrollInState defaultOptions = true
  ∧ nav_preserveScrollPosition nav = false
  ∧ log w1 = []
  ∧ getState (history w1) = Some state
  ∧ (scrollX (window w1), scrollY (window w1)) = (5%Z, 7%Z)
  ∧ log w2 = [ScrollTo 5 7]
  ∧ (scrollX (window w2), scrollY (window w2)) = (5%Z, 7%Z).
Proof. vm_compute. repeat split. Qed.

(** C6 (amended with the url-equality guard).  With [enableScroll] and
    [saveScrollInState] on, a sync of type click, default or replacestate
    with [preserveScrollPosition] off, to a url other than the history's
    current one, scrolls the viewport to [(0, 0)] and records
    [scroll = {x: 0, y: 0}] in the state it pushes (or replaces with).  A
    popstate sync scrolls to the offset stored in the current entry, each
    missing coordinate taken as [0].  So a popstate sync that follows the
    first sync, wherever the user has moved the viewport in between, brings
    it back to [(0, 0)]. *)
Theorem scroll_round_trip options (w : World) (nav nav' : Navigate)
    (x y : Z) :
  enableScroll options = true →
  saveScrollInState options = true →
  mutating_type (or_text (nav_type nav) TYPE_DEFAULT) →
  nav_preserveScrollPosition nav = false →
  nav_url nav ≠ Some (getUrl (history w)) →
  nav_type nav' = Some "popstate" →
  let state :=
    mkHistoryState (Some (default ∅ (nav_query nav)))
                   (Some (default ∅ (nav_params nav)))
                   (Some (mkScroll (Some 0%Z) (Some 0%Z))) in
  let title := pageTitle_of (default ∅ (nav_params nav)) in
  let w1 := exec (componentDidUpdate options) (receive nav w) in
  let w2 := exec (componentDidUpdate options)
              (receive nav' (scrolled_to x y w1)) in
  (log w1 = log w ++ [ScrollTo 0 0; PushState state title (nav_url nav)]
   ∨ log w1 = log w ++ [ScrollTo 0 0; ReplaceState state title (nav_url nav)])
  ∧ getState (history w1) = Some state
  ∧ (scrollX (window w1), scrollY (window w1)) = (0%Z, 0%Z)
  ∧ (∀ v, navType v = "popstate" →
       let vx := default 0%Z (scroll_x (stored_scroll v)) in
       let vy := default 0%Z (scroll_y (stored_scroll v)) in
       let v' := exec (componentDidUpdate options) v in
       log v' = log v ++ [ScrollTo vx vy]
       ∧ (scrollX (window v'), scrollY (window v')) = (vx, vy)
       ∧ history v' = history v)
  ∧ log w2 = log w1 ++ [ScrollTo 0 0]
  ∧ (scrollX (window w2), scrollY (window w2)) = (0%Z, 0%Z).
Proof.
  intros Hscroll Hsave Htype Hpreserve Hurl Hpop state title w1 w2.
  assert (w1 =
    let w0 := record (ScrollTo 0 0) (scrolled_to 0 0 (receive nav w)) in
    if bool_decide (or_text (nav_type nav) TYPE_DEFAULT = TYPE_REPLACESTATE)
    then record (ReplaceState state title (nav_url nav))
           (with_history (replaceState state title (nav_url nav)) w0)
    else record (PushState state title (nav_url nav))
           (with_history (pushState state title (nav_url nav)) w0)) as Hw1.
  { subst w1. rewrite sync_mutation_outcome by done.
    unfold sync_state. change (nav_of (receive nav w)) with nav.
    by rewrite Hscroll, Hsave, Hpreserve. }
  assert (log w1 = log w ++ [ScrollTo 0 0; PushState state title (nav_url nav)]
          ∨ log w1 = log w
                     ++ [ScrollTo 0 0; ReplaceState state title (nav_url nav)])
    as Hlog.
  { rewrite Hw1. cbn zeta. case_bool_decide; [right|left]; cbn;
      by rewrite <- app_assoc. }
  assert (getState (history w1) = Some state) as Hstate.
  { rewrite Hw1. cbn zeta. by case_bool_decide. }
  assert (∀ v, navType v = "popstate" →
       let vx := default 0%Z (scroll_x (stored_scroll v)) in
       let vy := default 0%Z (scroll_y (stored_scroll v)) in
       let v' := exec (componentDidUpdate options) v in
       log v' = log v ++ [ScrollTo vx vy]
       ∧ (scrollX (window v'), scrollY (window v')) = (vx, vy)
       ∧ history v' = history v) as Hpopstate.
  { intros v Hv vx vy v'. subst v'.
    by rewrite sync_popstate_outcome by done. }
  split; [done|]. split; [done|]. split.
  { rewrite Hw1. cbn zeta. by case_bool_decide. }
  split; [done|].
  destruct (Hpopstate (receive nav' (scrolled_to x y w1))) as (Hl & Hv & _).
  { unfold navType. change (nav_of _) with nav'. by rewrite Hpop. }
  assert (stored_scroll (receive nav' (scrolled_to x y w1))
          = mkScroll (Some 0%Z) (Some 0%Z)) as Hstored.
  { unfold stored_scroll.
    change (history (receive nav' (scrolled_to x y w1))) with (history w1).
    by rewrite Hstate. }
  rewrite Hstored in Hl, Hv. done.
Qed.

Lemma scroll_round_trip_witness :
  let w := scrolled_to 5 7
             (example_world "/a" (Some emptyState) false at_item_0
                example_window) in
  let nav := mkNavigate (Some "click") (Some "/b") (Some ∅) (Some ∅) false in
  let nav' := mkNavigate (Some "popstate") (Some "/b") None None false in
  let w1 := exec (componentDidUpdate defaultOptions) (receive nav w) in
  let w2 := exec (componentDidUpdate defaultOptions)
              (receive nav' (scrolled_to 30 40 w1)) in
  (scrollX (window w2), scrollY (window w2)) = (0%Z, 0%Z).
Proof.
  intros w nav nav' w1 w2.
  refine (proj2 (proj2 (proj2 (proj2 (proj2
    (scroll_round_trip defaultOptions w nav nav' 30 40 _ _ _ _ _ _)))))).
  - reflexivity.
  - reflexivity.
  - left. reflexivity.
  - reflexivity.
  - simpl. discriminate.
  - reflexivity.
Defined.

(** ** Scroll capture: [_saveScrollPosition] *)

Lemma same_scroll_spec scroll x y :
  same_scroll scroll x y = true ↔ scroll = Some (mkScroll (Some x) (Some y)).
Proof.
  unfold same_scroll. destruct scroll as [[sx sy]|]; [|done]. simpl.
  rewrite andb_true_iff, !bool_decide_eq_true. split.
  - by intros [-> ->].
  - intros [= -> ->]. done.
Qed.

Lemma saveScrollPosition_outcome w :
  let stored := default emptyState (getState (history w)) in
  let state :=
    mkHistoryState (st_query stored) (st_params stored)
                   (Some (current_scroll (window w))) in
  _saveScrollPosition w =
  (Normal tt,
   if same_scroll (st_scroll stored) (offset_x (window w)) (offset_y (window w))
   then w
   else record (ReplaceState state None None)
          (with_history (replaceState state None None) w)).
Proof.
  intros stored state. subst stored state.
  unfold _saveScrollPosition, bind, history_getState, history_replaceState,
    skip, gets, modify, value.
  by case_match.
Qed.

(** C7. When the state of the current entry already stores the current
    viewport offset in both coordinates, [_saveScrollPosition] changes
    nothing.  Otherwise it makes one call, [replaceState], with the stored
    state (empty when there is none) in which only [scroll] is overwritten:
    the entry's url, the entries below it and the depth of the stack are as
    before.  It never calls [pushState].  A second call at the same offset
    changes nothing, so the two calls together make one [replaceState]. *)
Theorem saveScrollPosition_replaces_scroll_only (w : World) :
  let stored := default emptyState (getState (history w)) in
  let offset := current_scroll (window w) in
  let state := mkHistoryState (st_query stored) (st_params stored)
                              (Some offset) in
  let w' := exec _saveScrollPosition w in
  let w'' := exec _saveScrollPosition w' in
  (st_scroll stored = Some offset → _saveScrollPosition w = (Normal tt, w))
  ∧ (st_scroll stored ≠ Some offset →
       log w' = log w ++ [ReplaceState state None None]
       ∧ getState (history w') = Some state
       ∧ getUrl (history w') = getUrl (history w)
       ∧ earlier (history w') = earlier (history w)
       ∧ depth (history w') = depth (history w)
       ∧ window w' = window w
       ∧ log w'' = log w ++ [ReplaceState state None None])
  ∧ w'' = w'
  ∧ filter is_pushState (log w') = filter is_pushState (log w).
Proof.
  intros stored offset state w' w''.
  pose proof (same_scroll_spec (st_scroll stored)
                (offset_x (window w)) (offset_y (window w))) as Hspec.
  fold (current_scroll (window w)) in Hspec. fold offset in Hspec.
  assert (w'' = w') as Hidem.
  { subst w'' w'. unfold exec at 1. rewrite saveScrollPosition_outcome.
    cbn [snd]. case_match eqn:Hsame; [done|].
    exfalso. revert Hsame. unfold exec.
    rewrite saveScrollPosition_outcome. cbn [snd].
    case_match eqn:Hfirst; [by rewrite Hfirst|].
    cbn. unfold same_scroll. cbn.
    by rewrite !bool_decide_eq_true_2. }
  subst w''. rewrite Hidem. subst w'. unfold exec.
  rewrite saveScrollPosition_outcome. fold stored. fold state.
  split; [|split; [|split]].
  - intros Hstored. by rewrite (proj2 Hspec Hstored).
  - intros Hstored.
    destruct (same_scroll _ _ _) eqn:Hsame.
    + by destruct Hstored, Hspec as [-> _].
    + by cbn.
  - done.
  - cbn [snd]. case_match; [done|].
    cbn. rewrite filter_app. cbn. by rewrite app_nil_r.
Qed.

Lemma saveScrollPosition_replaces_scroll_only_witness :
  let w := scrolled_to 0 120
             (example_world "/a" None false at_item_0 example_window) in
  log (exec _saveScrollPosition (exec _saveScrollPosition w))
  = [ReplaceState
       (mkHistoryState None None (Some (mkScroll (Some 0%Z) (Some 120%Z))))
       None None].
Proof.
  intros w.
  refine (proj2 (proj2 (proj2 (proj2 (proj2 (proj2
    (proj1 (proj2 (saveScrollPosition_replaces_scroll_only w)) _))))))).
  simpl. discriminate.
Defined.

(** ** Running a body step by step *)

Lemma bind_run {A B} (m : JS A) (f : A → JS B) w a w' :
  m w = (Normal a, w') → bind m f w = f a w'.
Proof. unfold bind. by intros ->. Qed.

Lemma run_exec {A} (m : JS A) w a w' : m w = (Normal a, w') → exec m w = w'.
Proof. unfold exec. by intros ->. Qed.

Lemma without_timer_single t : without_timer (timer_id t) [t] = [].
Proof. unfold without_timer. rewrite filter_cons_False; [done|]. by intros []. Qed.

Lemma due_by_due t now : timer_due t ≤ now → due_by now [t] = [timer_id t].
Proof. intros. unfold due_by. by rewrite filter_cons_True. Qed.

Lemma due_by_not_due t now : now < timer_due t → due_by now [t] = [].
Proof. intros. unfold due_by. rewrite filter_cons_False; [done|lia]. Qed.

(** ** Time passing with at most one timer pending *)

Lemma saveScrollPosition_run w :
  _saveScrollPosition w = (Normal tt, exec _saveScrollPosition w).
Proof. unfold exec. by rewrite saveScrollPosition_outcome. Qed.

Lemma elapse_idle w d :
  pending (window w) = [] → elapse d w = (Normal tt, tick d [] w).
Proof. intros Hp. destruct_world w. cbn in Hp. by subst. Qed.

Lemma elapse_not_due w t d :
  pending (window w) = [t] → now (window w) + d < timer_due t →
  elapse d w = (Normal tt, tick d [t] w).
Proof.
  intros Hp Hd. destruct_world w. cbn in Hp, Hd. subst.
  unfold elapse, bind, gets, modify, tick.
  cbn -[due_by fire_all]. by rewrite due_by_not_due.
Qed.

Lemma elapse_due w t d :
  pending (window w) = [t] → timer_due t ≤ now (window w) + d →
  elapse d w = (Normal tt, exec _saveScrollPosition (tick d [] w)).
Proof.
  intros Hp Hd. destruct_world w. cbn in Hp, Hd. subst.
  unfold elapse, bind, gets, modify, tick.
  cbn -[due_by fire_all _saveScrollPosition]. rewrite due_by_due by done.
  unfold fire_all, fire, bind, modify, with_window.
  cbn -[without_timer _saveScrollPosition].
  rewrite without_timer_single, saveScrollPosition_run. done.
Qed.

(** ** Unmounting *)

Lemma unmount_outcome options w :
  componentWillUnmount options w
  = (Normal tt,
     let w1 := with_history (off bound_onHistoryChange) w in
     if saveScrollInState options
     then with_window (λ win,
            set_listeners
              (filter (λ l', l' ≠ bound_onScroll) (scroll_listeners win))
              (popstate_listeners win) win) w1
     else w1).
Proof.
  unfold componentWillUnmount, bind, history_off,
    window_removeScrollListener, skip, modify, value.
  cbn. by case_match.
Qed.

Lemma not_elem_of_filter_ne (l : Listener) (ls : list Listener) :
  l ∉ filter (λ l', l' ≠ l) ls.
Proof. rewrite list_elem_of_filter. by intros [? _]. Qed.

Lemma due_timer_writes v t d :
  pending (window v) = [t] →
  timer_due t ≤ now (window v) + d →
  let stored := default emptyState (getState (history v)) in
  let state := mkHistoryState (st_query stored) (st_params stored)
                              (Some (current_scroll (window v))) in
  st_scroll stored ≠ Some (current_scroll (window v)) →
  exec (elapse d) v
  = record (ReplaceState state None None)
      (with_history (replaceState state None None) (tick d [] v)).
Proof.
  intros Hp Hdue stored state Hstored.
  rewrite (run_exec _ _ _ _ (elapse_due v t d Hp Hdue)).
  unfold exec. rewrite saveScrollPosition_outcome. cbn zeta.
  change (history (tick d [] v)) with (history v).
  change (offset_x (window (tick d [] v))) with (offset_x (window v)).
  change (offset_y (window (tick d [] v))) with (offset_y (window v)).
  change (current_scroll (window (tick d [] v)))
    with (current_scroll (window v)).
  fold stored. fold state.
  destruct (same_scroll _ _ _) eqn:Hsame; [|done].
  by apply same_scroll_spec in Hsame.
Qed.

(** C9. [componentWillUnmount] removes [_onHistoryChange] from the history's
    listeners and, with [saveScrollInState] on, [_onScroll] from the scroll
    listeners (with it off, the scroll listeners are left alone).  It makes
    no [clearTimeout] call and the pending timers are as before.  So a
    timer armed before the unmount fires once it is due, and its callback
    then calls [replaceState] when the stored offset differs from the
    viewport's. *)
Theorem unmount_leaves_timer_pending options (w : World) :
  let w' := exec (componentWillUnmount options) w in
  let stored := default emptyState (getState (history w)) in
  let offset := current_scroll (window w) in
  let state := mkHistoryState (st_query stored) (st_params stored)
                              (Some offset) in
  (bound_onHistoryChange ∉ listeners (history w'))
  ∧ (saveScrollInState options = true →
       bound_onScroll ∉ scroll_listeners (window w'))
  ∧ (saveScrollInState options = false →
       scroll_listeners (window w') = scroll_listeners (window w))
  ∧ pending (window w') = pending (window w)
  ∧ log w' = log w
  ∧ (∀ t d, pending (window w) = [t] →
            timer_due t ≤ now (window w) + d →
            st_scroll stored ≠ Some offset →
       log (exec (elapse d) w') = log w ++ [ReplaceState state None None]
       ∧ getState (history (exec (elapse d) w')) = Some state).
Proof.
  intros w' stored offset state. subst w'.
  rewrite (run_exec _ _ _ _ (unmount_outcome options w)). cbn zeta.
  split; [|split; [|split; [|split; [|split]]]].
  - destruct (saveScrollInState options); cbn; apply not_elem_of_filter_ne.
  - intros ->. cbn. apply not_elem_of_filter_ne.
  - by intros ->.
  - by destruct (saveScrollInState options).
  - by destruct (saveScrollInState options).
  - intros t d Hp Hdue Hstored.
    rewrite (due_timer_writes _ t d);
      by destruct (saveScrollInState options).
Qed.

Lemma unmount_leaves_timer_pending_witness :
  let w := exec (scroll_event 0 40)
             (exec (componentDidMount defaultOptions)
                (example_world "/a" None false at_item_0 example_window)) in
  let w' := exec (componentWillUnmount defaultOptions) w in
  pending (window w') = [mkTimer 1 150]
  ∧ log (exec (elapse 150) w')
    = log w ++ [ReplaceState
                  (mkHistoryState None None
                     (Some (mkScroll (Some 0%Z) (Some 40%Z))))
                  None None].
Proof.
  intros w w'. split.
  - refine (proj1 (proj2 (proj2 (proj2
              (unmount_leaves_timer_pending defaultOptions w))))).
  - refine (proj1 (proj2 (proj2 (proj2 (proj2 (proj2
      (unmount_leaves_timer_pending defaultOptions w)))))
      (mkTimer 1 150) 150 _ _ _)).
    + reflexivity.
    + simpl. lia.
    + simpl. discriminate.
Defined.

(** ** Scroll notifications: [_onScroll] and the debounce timer *)

Lemma onScroll_outcome w : _onScroll w = (Normal tt, rearmed w).
Proof.
  destruct_world w.
  unfold _onScroll, rearmed, kept, cleared, records, bind,
    window_clearTimeout, window_setTimeout, skip, gets, modify, value,
    record, with_window, with_this.
  cbn -[without_timer].
  destruct w_timer; cbn -[without_timer]; rewrite <- ?app_assoc; done.
Qed.

Lemma one_timer_kept w : one_timer w → kept w = [].
Proof.
  unfold one_timer, kept.
  destruct (pending (window w)) as [|t [|??]] eqn:Hp; [|intros ->|done].
  - by destruct (_scrollTimer (this w)).
  - apply without_timer_single.
Qed.

Lemma scroll_event_outcome x y w :
  listening w →
  scroll_event x y w = (Normal tt, rearmed (scrolled_to x y w)).
Proof.
  intros Hl. unfold scroll_event, bind, gets, modify.
  cbn -[_onScroll]. change (scroll_listeners (window w)) with (scroll_listeners (window w)).
  rewrite bool_decide_eq_true_2 by done.
  apply onScroll_outcome.
Qed.

Lemma scroll_event_deaf x y w :
  ¬ listening w →
  scroll_event x y w = (Normal tt, scrolled_to x y w).
Proof.
  intros Hl. unfold scroll_event, bind, gets, modify.
  cbn -[_onScroll].
  by rewrite bool_decide_eq_false_2 by done.
Qed.

Lemma one_timer_same w w' : same_timers w w' → one_timer w → one_timer w'.
Proof. unfold same_timers, one_timer. by intros [-> ->]. Qed.

Lemma onHistoryChange_timers options e w :
  same_timers w (exec (_onHistoryChange options e) w).
Proof.
  unfold exec. rewrite onHistoryChange_outcome. cbn zeta.
  repeat case_match; done.
Qed.

Lemma componentDidUpdate_timers options w :
  same_timers w (exec (componentDidUpdate options) w).
Proof.
  unfold exec. rewrite componentDidUpdate_outcome. cbn zeta.
  repeat case_match; done.
Qed.

Lemma unmount_timers options w :
  same_timers w (exec (componentWillUnmount options) w).
Proof.
  unfold exec. rewrite unmount_outcome. cbn zeta.
  repeat case_match; done.
Qed.

Lemma popstate_event_timers options e w :
  same_timers w (exec (popstate_event options e) w).
Proof.
  unfold exec, popstate_event, bind, gets, modify, skip, value.
  cbn -[_onHistoryChange].
  repeat case_bool_decide; cbn -[_onHistoryChange]; try done.
  - exact (onHistoryChange_timers options e (with_lastPending (Some e) w)).
  - exact (onHistoryChange_timers options e w).
Qed.

Lemma mount_timers options w :
  pending (window (exec (componentDidMount options) w)) = pending (window w)
  ∧ _scrollTimer (this (exec (componentDidMount options) w)) = None.
Proof.
  destruct_world w.
  unfold exec, componentDidMount,
    history_getState, history_getUrl, history_replaceState, history_on,
    executeAction, window_removePopstateListener, window_addScrollListener,
    skip, bind, gets, modify, value.
  cbn -[_onHistoryChange].
  repeat (case_match; simplify_eq/=); try done.
  all: match goal with
       | H : _onHistoryChange ?o ?e ?W = (_, ?w') |- _ =>
           pose proof (onHistoryChange_timers o e W) as Ht;
           unfold exec in Ht; rewrite H in Ht; exact Ht
       end.
Qed.

Lemma saveScrollPosition_timers w :
  same_timers w (exec _saveScrollPosition w).
Proof.
  unfold exec. rewrite saveScrollPosition_outcome. cbn zeta.
  by case_match.
Qed.

Lemma elapse_one_timer d w : one_timer w → one_timer (exec (elapse d) w).
Proof.
  intros Hone. pose proof Hone as Hone'. unfold one_timer in Hone'.
  destruct (pending (window w)) as [|t [|??]] eqn:Hp; [| |done].
  - by rewrite (run_exec _ _ _ _ (elapse_idle w d Hp)).
  - destruct (decide (timer_due t ≤ now (window w) + d)) as [Hdue|Hdue].
    + rewrite (run_exec _ _ _ _ (elapse_due w t d Hp Hdue)).
      by apply (one_timer_same (tick d [] w));
        [apply saveScrollPosition_timers|].
    + rewrite (run_exec _ _ _ _ (elapse_not_due w t d Hp ltac:(lia))).
      done.
Qed.

Lemma rearmed_one_timer w : one_timer w → one_timer (rearmed w).
Proof.
  intros Hone. unfold one_timer, rearmed. cbn.
  by rewrite (one_timer_kept w Hone).
Qed.

Lemma scroll_event_one_timer x y w :
  one_timer w → one_timer (exec (scroll_event x y) w).
Proof.
  intros Hone. destruct (decide (listening w)) as [Hl|Hl].
  - rewrite (run_exec _ _ _ _ (scroll_event_outcome x y w Hl)).
    by apply rearmed_one_timer.
  - by rewrite (run_exec _ _ _ _ (scroll_event_deaf x y w Hl)).
Qed.

Lemma step_one_timer options w w' :
  step options w w' → one_timer w → one_timer w'.
Proof.
  intros [x y ?|d ?|entry below e ?|p ?|hook ?|?] Hone.
  - by apply scroll_event_one_timer.
  - by apply elapse_one_timer.
  - eapply one_timer_same; [apply popstate_event_timers|done].
  - eapply one_timer_same; [apply componentDidUpdate_timers|done].
  - done.
  - eapply one_timer_same; [apply unmount_timers|done].
Qed.

Lemma reachable_one_timer options w0 w :
  pending (window w0) = [] → reachable options w0 w → one_timer w.
Proof.
  intros Hp. revert w. apply rtc_ind_r.
  - destruct (mount_timers options w0) as [Hp' _].
    unfold one_timer. by rewrite Hp', Hp.
  - intros w1 w2 _ Hstep IH. by apply (step_one_timer options w1).
Qed.

Lemma one_timer_length w : one_timer w → length (pending (window w)) ≤ 1.
Proof.
  unfold one_timer.
  destruct (pending (window w)) as [|t [|??]]; cbn; [lia..|done].
Qed.

Lemma current_scroll_scrolled_to x y w :
  current_scroll (window (scrolled_to x y w)) = mkScroll (Some x) (Some y).
Proof.
  unfold current_scroll, offset_x, offset_y. cbn. by rewrite !or_num_same.
Qed.

Lemma scroll_event_arms x y w :
  listening w → one_timer w →
  let w' := exec (scroll_event x y) w in
  armed x y w' ∧ history w' = history w
  ∧ mutations (log w') = mutations (log w).
Proof.
  intros Hl Hone w'. subst w'.
  rewrite (run_exec _ _ _ _ (scroll_event_outcome x y w Hl)).
  assert (one_timer (scrolled_to x y w)) as Hone' by done.
  split; [|split].
  - split; [done|]. split.
    + eexists. unfold rearmed. cbn. by rewrite (one_timer_kept _ Hone').
    + apply current_scroll_scrolled_to.
  - done.
  - unfold rearmed. cbn -[mutations]. rewrite mutations_app.
    replace (mutations (cleared _ ++ _)) with (@nil Effect);
      [by rewrite app_nil_r|].
    unfold cleared. by case_match.
Qed.

Lemma elapse_short x y w gap :
  armed x y w → gap < 150 →
  let w' := exec (elapse gap) w in
  listening w' ∧ one_timer w'
  ∧ history w' = history w ∧ log w' = log w.
Proof.
  intros (Hl & (id & Hp & Hid) & Hv) Hgap w'. subst w'.
  rewrite (run_exec _ _ _ _ (elapse_not_due w _ gap Hp ltac:(cbn; lia))).
  repeat split; done.
Qed.

Lemma fire_run id w : fire id w = (Normal tt, exec (fire id) w).
Proof.
  unfold exec, fire, bind, modify. cbn -[_saveScrollPosition].
  by rewrite saveScrollPosition_run.
Qed.

Lemma fire_all_run ids w : fire_all ids w = (Normal tt, exec (fire_all ids) w).
Proof.
  revert w. induction ids as [|id ids IH]; intros w; [done|].
  unfold exec. cbn -[fire]. unfold bind. rewrite fire_run, IH. done.
Qed.

Lemma elapse_run d w : elapse d w = (Normal tt, exec (elapse d) w).
Proof.
  unfold exec, elapse, bind, gets, modify. cbn -[fire_all].
  by rewrite fire_all_run.
Qed.

Lemma scroll_event_run x y w :
  scroll_event x y w = (Normal tt, exec (scroll_event x y) w).
Proof.
  unfold exec, scroll_event, bind, gets, modify. cbn -[_onScroll].
  case_bool_decide; [|done]. by rewrite onScroll_outcome.
Qed.

Lemma exec_seq (m k : JS unit) w :
  m w = (Normal tt, exec m w) →
  exec (bind m (λ _, k)) w = exec k (exec m w).
Proof. intros Hm. unfold exec at 1, bind. by rewrite Hm. Qed.

Lemma seq_run (m k : JS unit) w :
  m w = (Normal tt, exec m w) →
  (∀ v, k v = (Normal tt, exec k v)) →
  bind m (λ _, k) w = (Normal tt, exec (bind m (λ _, k)) w).
Proof.
  intros Hm Hk. rewrite exec_seq by done. unfold bind. by rewrite Hm, Hk.
Qed.

Lemma burst_run evs w : burst evs w = (Normal tt, exec (burst evs) w).
Proof.
  revert w. induction evs as [|ev evs IH]; intros w; [done|].
  cbn [burst]. apply seq_run; [apply elapse_run|]. intros v.
  apply seq_run; [apply scroll_event_run|done].
Qed.

Lemma burst_arms evs : ∀ x y w,
  armed x y w →
  Forall (λ ev, after ev < 150) evs →
  let w' := exec (burst evs) w in
  let '(lx, ly) := last_offset x y evs in
  armed lx ly w' ∧ history w' = history w
  ∧ mutations (log w') = mutations (log w).
Proof.
  induction evs as [|ev evs IH]; intros x y w Harmed Hgaps; [done|].
  apply Forall_cons in Hgaps as [Hgap Hgaps].
  cbn [burst last_offset].
  rewrite exec_seq by apply elapse_run.
  rewrite exec_seq by apply scroll_event_run.
  destruct (elapse_short x y w (after ev) Harmed Hgap) as (Hl & Hone & Hh & Hlog).
  destruct (scroll_event_arms (to_x ev) (to_y ev) _ Hl Hone) as (Ha & Hh' & Hlog').
  specialize (IH (to_x ev) (to_y ev) _ Ha Hgaps). cbn zeta in IH.
  destruct (last_offset (to_x ev) (to_y ev) evs) as [lx ly].
  destruct IH as (IHa & IHh & IHlog).
  rewrite IHh, IHlog, Hh', Hlog', Hh, Hlog. done.
Qed.

Lemma stored_scroll_bind h :
  getState h ≫= st_scroll = st_scroll (default emptyState (getState h)).
Proof. by destruct (getState h). Qed.

Lemma due_save x y w d id :
  current_scroll (window w) = mkScroll (Some x) (Some y) →
  pending (window w) = [mkTimer id (now (window w) + 150)] →
  150 ≤ d →
  let w' := exec (elapse d) w in
  (∃ writes, mutations (log w') = mutations (log w) ++ writes
             ∧ length writes ≤ 1
             ∧ ∀ m, m ∈ writes →
                 ∃ st, m = ReplaceState st None None
                       ∧ st_scroll st = Some (mkScroll (Some x) (Some y)))
  ∧ getState (history w') ≫= st_scroll = Some (mkScroll (Some x) (Some y))
  ∧ pending (window w') = [].
Proof.
  intros Hv Hp Hd w'. subst w'.
  rewrite (run_exec _ _ _ _ (elapse_due w _ d Hp ltac:(cbn; lia))).
  unfold exec. rewrite saveScrollPosition_outcome. cbn zeta.
  change (history (tick d [] w)) with (history w).
  change (offset_x (window (tick d [] w))) with (offset_x (window w)).
  change (offset_y (window (tick d [] w))) with (offset_y (window w)).
  change (current_scroll (window (tick d [] w)))
    with (current_scroll (window w)).
  rewrite Hv.
  destruct (same_scroll _ _ _) eqn:Hsame; cbn [snd].
  - split; [|split; [|done]].
    + exists []. rewrite app_nil_r. split; [done|]. split; [cbn; lia|].
      by intros m ?%elem_of_nil.
    + rewrite stored_scroll_bind. apply same_scroll_spec in Hsame.
      fold (current_scroll (window w)) in Hsame. by rewrite Hv in Hsame.
  - split; [|split; [|done]].
    + eexists [_]. cbn -[mutations]. rewrite mutations_app.
      split; [done|]. split; [cbn; lia|].
      intros m ->%list_elem_of_singleton. by eexists.
    + done.
Qed.

(** C8. Every scroll notification clears the timer [this._scrollTimer]
    names, if any, then arms a new one with a delay of 150.  From the mount
    on (in a window where this component has no timer yet), whatever
    happens, at most one timer is pending.  A run of scroll events, each
    less than 150 after the one before, followed by [d] more time units,
    makes at most one history mutation, a [replaceState] whose scroll is the
    offset of the last event; once 150 have passed the current entry stores
    that offset and no timer is left, and before that nothing is written. *)
Theorem scroll_save_is_debounced options :
  (∀ w, let w' := exec _onScroll w in
        let id := next_timer (window w) in
        log w' = log w ++ cleared w ++ [SetTimeout id 150]
        ∧ pending (window w')
          = kept w ++ [mkTimer id (now (window w) + 150)]
        ∧ _scrollTimer (this w') = Some id)
  ∧ (∀ w0 w, pending (window w0) = [] →
             reachable options w0 w →
             length (pending (window w)) ≤ 1)
  ∧ (∀ w x y evs d,
       listening w → one_timer w →
       Forall (λ ev, after ev < 150) evs →
       let w' := exec (scroll_event x y;; burst evs;; elapse d) w in
       let '(lx, ly) := last_offset x y evs in
       let offset := mkScroll (Some lx) (Some ly) in
       (∃ writes, mutations (log w') = mutations (log w) ++ writes
                  ∧ length writes ≤ 1
                  ∧ ∀ m, m ∈ writes →
                      ∃ st, m = ReplaceState st None None
                            ∧ st_scroll st = Some offset)
       ∧ (150 ≤ d →
            getState (history w') ≫= st_scroll = Some offset
            ∧ pending (window w') = [])
       ∧ (d < 150 →
            history w' = history w
            ∧ length (pending (window w')) = 1)).
Proof.
  split; [|split].
  - intros w w' id. subst w'.
    by rewrite (run_exec _ _ _ _ (onScroll_outcome w)).
  - intros w0 w Hp Hreach.
    by apply one_timer_length, (reachable_one_timer options w0).
  - intros w x y evs d Hl Hone Hgaps w'. subst w'.
    rewrite exec_seq by apply scroll_event_run.
    rewrite exec_seq by apply burst_run.
    destruct (scroll_event_arms x y w Hl Hone) as (Ha & Hh & Hlog).
    pose proof (burst_arms evs x y _ Ha Hgaps) as Hburst.
    cbn zeta in Hburst.
    destruct (last_offset x y evs) as [lx ly].
    destruct Hburst as ((Hl' & (id & Hp & Hid) & Hv) & Hh' & Hlog').
    set (w2 := exec (burst evs) (exec (scroll_event x y) w)) in *.
    rewrite <- Hlog, <- Hlog', <- Hh, <- Hh'.
    destruct (decide (150 ≤ d)) as [Hd|Hd].
    + destruct (due_save lx ly w2 d id Hv Hp Hd) as (Hw & Hs & Hnone).
      split; [done|]. split; [done|]. intros ?. lia.
    + rewrite (run_exec _ _ _ _
                 (elapse_not_due w2 _ d Hp ltac:(cbn; lia))).
      split; [|split; [intros ?; lia|intros _; done]].
      exists []. rewrite app_nil_r. split; [done|]. split; [cbn; lia|].
      by intros m ?%elem_of_nil.
Qed.

Lemma scroll_save_is_debounced_witness :
  let w := exec (componentDidMount defaultOptions)
             (example_world "/a" None false at_item_0 example_window) in
  let evs := [mkScrollEvent 50 0 20; mkScrollEvent 100 0 30] in
  let w' := exec (scroll_event 0 10;; burst evs;; elapse 150) w in
  getState (history w') ≫= st_scroll = Some (mkScroll (Some 0%Z) (Some 30%Z))
  ∧ pending (window w') = [].
Proof.
  intros w evs w'.
  refine (proj1 (proj2
    (proj2 (proj2 (scroll_save_is_debounced defaultOptions))
       w 0%Z 10%Z evs 150 _ _ _)) _).
  - vm_compute. left.
  - vm_compute. exact I.
  - repeat constructor.
  - lia.
Defined.

(** * Further properties *)

(** ** The mount, step by step *)

Lemma onHistoryChange_run options e w :
  _onHistoryChange options e w = (Normal tt, exec (_onHistoryChange options e) w).
Proof. unfold exec. by rewrite onHistoryChange_outcome. Qed.

Lemma mount_outcome options w :
  componentDidMount options w
  = (Normal tt,
     mount_listen options (mount_replay options (mount_subscribed options w))).
Proof.
  destruct_world w. destruct w_entry as [state title url].
  unfold componentDidMount, mount_listen, mount_replay, mount_subscribed,
    mount_seeded, mount_seed, mount_pageload, pageload_payload, records, exec,
    history_getState, history_getUrl, history_replaceState, history_on,
    executeAction, window_removePopstateListener, window_addScrollListener,
    skip, bind, gets, modify, value, truthy,
    record, with_window, with_history, with_this, with_lastPending.
  cbn -[_onHistoryChange].
  destruct (shouldIgnorePopstateOnPageLoad options), state,
    (checkRouteOnPageLoad options), w_hps, w_buffered as [e|],
    (saveScrollInState options);
    cbn -[_onHistoryChange];
    repeat case_bool_decide; cbn -[_onHistoryChange];
    rewrite ?app_nil_r, <- ?app_assoc; cbn -[_onHistoryChange];
    try reflexivity;
    by destruct (_onHistoryChange _ _ _) as [[[]|] ?] eqn:Hrun;
      [|rewrite onHistoryChange_run in Hrun].
Qed.

Lemma mount_exec options w :
  exec (componentDidMount options) w
  = mount_listen options (mount_replay options (mount_subscribed options w)).
Proof. unfold exec. by rewrite mount_outcome. Qed.

(** What [_onHistoryChange] leaves alone: the instance, the subscriptions,
    the viewport, the timers, the buffer. *)
Lemma onHistoryChange_frame options e w :
  let w' := exec (_onHistoryChange options e) w in
  this w' = this w
  ∧ listeners (history w') = listeners (history w)
  ∧ set_onbeforeunload (onbeforeunload (window w)) (window w') = window w
  ∧ HAS_PUSH_STATE w' = HAS_PUSH_STATE w
  ∧ lastPendingPopstateEvent w' = lastPendingPopstateEvent w.
Proof.
  intros w'. subst w'. unfold exec. rewrite onHistoryChange_outcome.
  destruct_world w. cbn. repeat case_match; done.
Qed.

Lemma mount_without_replay options w :
  HAS_PUSH_STATE w = false ∨ lastPendingPopstateEvent w = None →
  log (exec (componentDidMount options) w)
  = log w ++ mount_seed options w ++ mount_pageload options w.
Proof.
  intros Hno. rewrite mount_exec.
  unfold mount_listen, mount_replay.
  change (HAS_PUSH_STATE (mount_subscribed options w)) with (HAS_PUSH_STATE w).
  change (lastPendingPopstateEvent (mount_subscribed options w))
    with (lastPendingPopstateEvent w).
  destruct Hno as [-> | ->], (saveScrollInState options);
    try destruct (HAS_PUSH_STATE w); done.
Qed.

Lemma mount_history_without_replay options w :
  HAS_PUSH_STATE w = false ∨ lastPendingPopstateEvent w = None →
  history (exec (componentDidMount options) w)
  = on bound_onHistoryChange (mount_seeded options (history w)).
Proof.
  intros Hno. rewrite mount_exec. unfold mount_listen, mount_replay.
  change (HAS_PUSH_STATE (mount_subscribed options w)) with (HAS_PUSH_STATE w).
  change (lastPendingPopstateEvent (mount_subscribed options w))
    with (lastPendingPopstateEvent w).
  destruct Hno as [-> | ->], (saveScrollInState options);
    try destruct (HAS_PUSH_STATE w); done.
Qed.

Lemma mount_seeded_frame options h :
  getUrl (mount_seeded options h) = getUrl h
  ∧ depth (mount_seeded options h) = depth h
  ∧ listeners (mount_seeded options h) = listeners h
  ∧ (shouldIgnorePopstateOnPageLoad options = true →
       getState (mount_seeded options h) ≠ None).
Proof.
  unfold mount_seeded, getState.
  destruct (shouldIgnorePopstateOnPageLoad options),
    (entry_state (current h)) eqn:Hs; cbn; rewrite ?Hs; done.
Qed.

(** X1. [handleHistory] called without [opts], or with [opts] that do not
    give [ignorePopstateOnPageLoad], never ignores a popstate event: after
    the mount [this._ignorePageLoadPopstate] is [false] and no event is
    classified as the popstate of a page load, whatever its state.  When no
    event was buffered, the mount then makes no history mutation and leaves
    the history's state as it found it. *)
Theorem absent_option_never_ignores_popstate (opts : option Opts) (w : World) :
  opts ≫= opt_ignorePopstateOnPageLoad = None →
  let options := handleHistory_options opts in
  let w' := exec (componentDidMount options) w in
  _ignorePageLoadPopstate (this w') = false
  ∧ (∀ e, suppressed e w' = false)
  ∧ (lastPendingPopstateEvent w = None →
       mutations (log w') = mutations (log w)
       ∧ getState (history w') = getState (history w)).
Proof.
  intros Hopt options w'.
  assert (shouldIgnorePopstateOnPageLoad options = false) as Hignore.
  { subst options. destruct opts as [[? ? ? [?|]]|]; done. }
  destruct (mount_caches_flag_and_seeds_state options w) as [Hflag _].
  fold w' in Hflag. rewrite Hignore in Hflag.
  split; [done|]. split.
  { intros e. unfold suppressed. by rewrite Hflag. }
  intros Hbuf. split.
  - subst w'. rewrite mount_without_replay by by right.
    unfold mount_seed, mount_pageload. rewrite Hignore. cbn -[mutations].
    rewrite mutations_app. case_match; cbn; by rewrite app_nil_r.
  - subst w'. rewrite mount_history_without_replay by by right.
    unfold mount_seeded. by rewrite Hignore.
Qed.

Lemma absent_option_never_ignores_popstate_witness :
  let w := example_world "/item/1" None false at_item_0 example_window in
  let options := handleHistory_options (Some (mkOpts None (Some false) None None)) in
  suppressed (mkEvent None) (exec (componentDidMount options) w) = false.
Proof.
  intros w options.
  refine (proj1 (proj2
    (absent_option_never_ignores_popstate
       (Some (mkOpts None (Some false) None None)) w _)) (mkEvent None)).
  reflexivity.
Defined.

Lemma mount_seed_mutations options w :
  mutations (mount_seed options w) = mount_seed options w
  ∧ dispatched (mount_seed options w) = [].
Proof. unfold mount_seed. by case_match. Qed.

Lemma mount_pageload_dispatched options w :
  mutations (mount_pageload options w) = []
  ∧ dispatched (mount_pageload options w)
    = if checkRouteOnPageLoad options
         && bool_decide (Some (getUrl (history w))
                         ≠ currentRoute (props (this w)) ≫= route_url)
      then [pageload_payload w] else [].
Proof. unfold mount_pageload. by case_match. Qed.

(** X2. What [componentDidMount] calls when no buffered event is replayed.
    It dispatches one navigation of type pageload with the history's url
    when [checkRouteOnPageLoad] is on and that url is not the current
    route's (in particular when there is no current route), and nothing
    otherwise.  It calls [replaceState({})] when popstate events are to be
    ignored and the history has no state, and makes no other history
    mutation.  The url and the depth of the history are unchanged,
    [this._scrollTimer] is [null] and no timer is armed. *)
Theorem mount_checks_route_on_page_load options (w : World) :
  HAS_PUSH_STATE w = false ∨ lastPendingPopstateEvent w = None →
  let w' := exec (componentDidMount options) w in
  let urlFromHistory := getUrl (history w) in
  let urlFromState := currentRoute (props (this w)) ≫= route_url in
  dispatched (log w')
  = dispatched (log w)
    ++ (if checkRouteOnPageLoad options
           && bool_decide (Some urlFromHistory ≠ urlFromState)
        then [ {| p_type := "pageload"; p_url := urlFromHistory;
                  p_params := None; p_query := None |} ]
        else [])
  ∧ mutations (log w')
    = mutations (log w)
      ++ (if shouldIgnorePopstateOnPageLoad options
             && is_null (getState (history w))
          then [ReplaceState emptyState None None]
          else [])
  ∧ getUrl (history w') = urlFromHistory
  ∧ depth (history w') = depth (history w)
  ∧ _scrollTimer (this w') = None
  ∧ pending (window w') = pending (window w).
Proof.
  intros Hno w' urlFromHistory urlFromState.
  destruct (mount_timers options w) as [Hp Ht]. fold w' in Hp, Ht.
  assert (log w' = log w ++ mount_seed options w ++ mount_pageload options w)
    as Hlog by by apply mount_without_replay.
  destruct (mount_seed_mutations options w) as [Hsm Hsd].
  destruct (mount_pageload_dispatched options w) as [Hpm Hpd].
  rewrite Hlog, !dispatched_app, !mutations_app, Hsm, Hsd, Hpm, Hpd.
  rewrite app_nil_r. cbn [app].
  split; [done|]. split; [done|].
  subst w'. rewrite (mount_history_without_replay options w Hno).
  destruct (mount_seeded_frame options (history w)) as (Hu & Hd & _).
  done.
Qed.

Lemma mount_checks_route_on_page_load_witness :
  let w := example_world "/item/1" None false at_item_0 example_window in
  dispatched (log (exec (componentDidMount ignoring_options) w))
  = [ {| p_type := "pageload"; p_url := "/item/1";
         p_params := None; p_query := None |} ].
Proof.
  intros w.
  exact (proj1 (mount_checks_route_on_page_load ignoring_options w
                  (or_intror eq_refl))).
Defined.

Lemma popstate_event_buffers options e w :
  preloadListener ∈ popstate_listeners (window w) →
  bound_onHistoryChange ∉ listeners (history w) →
  popstate_event options e w = (Normal tt, with_lastPending (Some e) w).
Proof.
  intros Hpre Hnot. unfold popstate_event, bind, gets, modify, skip, value.
  cbn -[_onHistoryChange].
  rewrite bool_decide_eq_true_2 by done. cbn -[_onHistoryChange].
  by rewrite bool_decide_eq_false_2 by done.
Qed.

Lemma popstate_events_buffer options es : ∀ w,
  preloadListener ∈ popstate_listeners (window w) →
  bound_onHistoryChange ∉ listeners (history w) →
  popstate_events options es w
  = (Normal tt,
     with_lastPending (from_option Some (lastPendingPopstateEvent w) (last es)) w).
Proof.
  induction es as [|e es IH]; intros w Hpre Hnot.
  - by destruct w.
  - cbn [popstate_events]. unfold bind.
    rewrite popstate_event_buffers by done.
    rewrite IH by done. f_equal. unfold with_lastPending. cbn.
    destruct es as [|e' es]; [done|]. rewrite last_cons_cons.
    destruct (last (e' :: es)) eqn:Hlast; [done|].
    by apply last_None in Hlast.
Qed.

(** X4. Before the mount, with [preloadListener] registered and
    [_onHistoryChange] not yet subscribed, a run of popstate events only
    overwrites [lastPendingPopstateEvent]: after the run the buffer holds
    the last event and nothing else in the world has changed (nothing is
    dispatched, the history is untouched, the earlier events are gone). *)
Theorem last_event_before_mount_wins options (w : World)
    (es : list Event) (e : Event) :
  preloadListener ∈ popstate_listeners (window w) →
  bound_onHistoryChange ∉ listeners (history w) →
  exec (popstate_events options (es ++ [e])) w = with_lastPending (Some e) w.
Proof.
  intros Hpre Hnot. unfold exec.
  rewrite popstate_events_buffer by done. by rewrite last_snoc.
Qed.

Lemma last_event_before_mount_wins_witness :
  exec (popstate_events defaultOptions [mkEvent None; example_event])
       preloading_world
  = with_lastPending (Some example_event) preloading_world.
Proof.
  refine (last_event_before_mount_wins defaultOptions preloading_world
            [mkEvent None] example_event _ _).
  - vm_compute. left.
  - simpl. apply not_elem_of_nil.
Defined.

Lemma module_load_outcome w :
  module_load w
  = (Normal tt,
     if HAS_PUSH_STATE w
     then exec (window_addPopstateListener preloadListener) w else w).
Proof.
  unfold module_load, bind, gets, skip, value. by destruct (HAS_PUSH_STATE w).
Qed.

(** The replay of a buffered event that the detector classifies as the
    popstate of a page load changes nothing. *)
Lemma mount_replay_discards options w e :
  HAS_PUSH_STATE w = true →
  lastPendingPopstateEvent w = Some e →
  shouldIgnorePopstateOnPageLoad options = true →
  ev_state e = None →
  mount_replay options (mount_subscribed options w)
  = with_lastPending None
      (exec (window_removePopstateListener preloadListener)
         (mount_subscribed options w)).
Proof.
  intros Hhps Hbuf Hignore Hnull. unfold mount_replay.
  change (HAS_PUSH_STATE (mount_subscribed options w)) with (HAS_PUSH_STATE w).
  change (lastPendingPopstateEvent (mount_subscribed options w))
    with (lastPendingPopstateEvent w).
  rewrite Hhps, Hbuf. cbn zeta. unfold exec at 1.
  rewrite suppressed_discards; [done|].
  unfold suppressed. cbn. rewrite Hignore, Hnull. cbn.
  destruct (mount_seeded_frame options (history w)) as (_ & _ & _ & Hs).
  specialize (Hs Hignore). unfold getState in *. cbn.
  by destruct (entry_state _).
Qed.

(** X3. The page-load popstate of Safari, from module load to mount.  With
    [HAS_PUSH_STATE] and popstate events to be ignored, an event with a
    [null] state that fires before the mount is buffered by
    [preloadListener]; the mount replays it after it has seeded the
    history's state, so the replay is discarded: the mount makes the calls
    it would have made without the event, dispatches no popstate
    navigation, empties the buffer and removes [preloadListener]. *)
Theorem buffered_pageload_popstate_is_dropped options (w : World) (e : Event) :
  HAS_PUSH_STATE w = true →
  shouldIgnorePopstateOnPageLoad options = true →
  ev_state e = None →
  bound_onHistoryChange ∉ listeners (history w) →
  lastPendingPopstateEvent w = None →
  let w1 := exec module_load w in
  let w2 := exec (popstate_event options e) w1 in
  let w3 := exec (componentDidMount options) w2 in
  w2 = with_lastPending (Some e) w1
  ∧ log w3 = log (exec (componentDidMount options) w)
  ∧ dispatched (log w3)
    = dispatched (log w)
      ++ (if checkRouteOnPageLoad options
             && bool_decide (Some (getUrl (history w))
                             ≠ currentRoute (props (this w)) ≫= route_url)
          then [ {| p_type := "pageload"; p_url := getUrl (history w);
                    p_params := None; p_query := None |} ]
          else [])
  ∧ lastPendingPopstateEvent w3 = None
  ∧ preloadListener ∉ popstate_listeners (window w3).
Proof.
  intros Hhps Hignore Hnull Hnot Hnone w1 w2 w3.
  assert (w1 = exec (window_addPopstateListener preloadListener) w) as Hw1.
  { subst w1. unfold exec at 1. by rewrite module_load_outcome, Hhps. }
  assert (w2 = with_lastPending (Some e) w1) as Hw2.
  { subst w2. unfold exec at 1. rewrite popstate_event_buffers; [done| |].
    - rewrite Hw1. cbn. apply elem_of_app. right. by left.
    - by rewrite Hw1. }
  assert (log w3 = log w ++ mount_seed options w ++ mount_pageload options w)
    as Hlog.
  { subst w3. rewrite mount_exec.
    rewrite (mount_replay_discards options w2 e);
      [|by rewrite Hw2, Hw1|by rewrite Hw2|done..].
    rewrite Hw2, Hw1. unfold mount_listen.
    by destruct (saveScrollInState options). }
  split; [done|]. split.
  { rewrite Hlog. by rewrite mount_without_replay by by right. }
  split.
  { rewrite Hlog, !dispatched_app.
    destruct (mount_seed_mutations options w) as [_ ->].
    destruct (mount_pageload_dispatched options w) as [_ ->]. done. }
  subst w3. rewrite mount_exec.
  rewrite (mount_replay_discards options w2 e);
    [|by rewrite Hw2, Hw1|by rewrite Hw2|done..].
  unfold mount_listen.
  split; destruct (saveScrollInState options); cbn; try done;
    apply not_elem_of_filter_ne.
Qed.

Lemma buffered_pageload_popstate_is_dropped_witness :
  let w := example_world "/item/1" None false at_item_0 example_window in
  let w3 := exec (componentDidMount ignoring_options)
              (exec (popstate_event ignoring_options (mkEvent None))
                 (exec module_load w)) in
  dispatched (log w3)
  = [ {| p_type := "pageload"; p_url := "/item/1";
         p_params := None; p_query := None |} ]
  ∧ lastPendingPopstateEvent w3 = None.
Proof.
  intros w w3.
  pose proof (buffered_pageload_popstate_is_dropped ignoring_options w
                (mkEvent None) eq_refl eq_refl eq_refl) as H.
  refine (let H' := H _ eq_refl in
          conj (proj1 (proj2 (proj2 H'))) (proj1 (proj2 (proj2 (proj2 H'))))).
  simpl. apply not_elem_of_nil.
Defined.

Lemma currentUrl_bind w :
  currentRoute (props (this w)) ≫= route_url = currentUrl w.
Proof. unfold currentUrl. by destruct (currentRoute _). Qed.

(** X5. An event buffered before the mount is not lost.  With
    [HAS_PUSH_STATE], popstate events not ignored, confirmation granted and
    the history's url not the current route's, the mount dispatches the
    popstate navigation for the buffered event (after the pageload
    navigation, when [checkRouteOnPageLoad] is on: both are dispatched),
    makes no history mutation, empties the buffer, removes
    [preloadListener] and sets [window.onbeforeunload] to [null]. *)
Theorem buffered_event_is_replayed_at_mount options (w : World) (e : Event) :
  HAS_PUSH_STATE w = true →
  lastPendingPopstateEvent w = Some e →
  shouldIgnorePopstateOnPageLoad options = false →
  granted w →
  Some (getUrl (history w)) ≠ currentUrl w →
  let w' := exec (componentDidMount options) w in
  dispatched (log w')
  = dispatched (log w)
    ++ (if checkRouteOnPageLoad options
        then [ {| p_type := "pageload"; p_url := getUrl (history w);
                  p_params := None; p_query := None |} ]
        else [])
    ++ [ {| p_type := "popstate"; p_url := getUrl (history w);
            p_params := ev_state e ≫= st_params;
            p_query := ev_state e ≫= st_query |} ]
  ∧ mutations (log w') = mutations (log w)
  ∧ lastPendingPopstateEvent w' = None
  ∧ (preloadListener ∉ popstate_listeners (window w'))
  ∧ onbeforeunload (window w') = None.
Proof.
  intros Hhps Hbuf Hignore Hg Hurl w'. subst w'. rewrite mount_exec.
  unfold mount_replay.
  change (HAS_PUSH_STATE (mount_subscribed options w)) with (HAS_PUSH_STATE w).
  change (lastPendingPopstateEvent (mount_subscribed options w))
    with (lastPendingPopstateEvent w).
  rewrite Hhps, Hbuf. cbn zeta.
  set (v := exec (window_removePopstateListener preloadListener)
              (mount_subscribed options w)).
  assert (granted v) as Hgv by exact Hg.
  assert (suppressed e v = false) as Hs.
  { unfold suppressed. cbn. by rewrite Hignore. }
  assert (getUrl (history v) = getUrl (history w)) as Hv.
  { subst v. cbn. unfold mount_seeded. by rewrite Hignore. }
  assert (exec (_onHistoryChange options e) v
          = with_window (set_onbeforeunload None)
              (records (consulting v ++ [ExecuteAction (popstate_payload e v)])
                 v)) as Hrun.
  { unfold exec. rewrite onHistoryChange_outcome, Hs.
    rewrite granted_confirmResult by done. cbn zeta. cbn [negb snd].
    change (currentUrl v) with (currentUrl w). rewrite Hv.
    by rewrite bool_decide_eq_true_2 by done. }
  rewrite Hrun.
  assert (log v = log w ++ mount_pageload options w) as Hlogv.
  { subst v. cbn. unfold mount_seed. by rewrite Hignore. }
  assert (mount_pageload options w
          = if checkRouteOnPageLoad options
            then [ExecuteAction (pageload_payload w)] else []) as Hpl.
  { unfold mount_pageload. rewrite currentUrl_bind.
    rewrite bool_decide_eq_true_2 by done. by rewrite andb_true_r. }
  assert (preloadListener ∉ popstate_listeners (window v)) as Hpop
    by apply not_elem_of_filter_ne.
  clearbody v. unfold mount_listen, popstate_payload.
  split; [|split; [|split; [|split]]].
  - destruct (saveScrollInState options); cbn -[dispatched];
      rewrite Hlogv, Hpl, !dispatched_app, dispatched_consulting, Hv;
      destruct (checkRouteOnPageLoad options); cbn;
      rewrite <- ?app_assoc, ?app_nil_r; done.
  - destruct (saveScrollInState options); cbn -[mutations];
      rewrite Hlogv, Hpl, !mutations_app, mutations_consulting;
      destruct (checkRouteOnPageLoad options); cbn; by rewrite !app_nil_r.
  - by destruct (saveScrollInState options).
  - by destruct (saveScrollInState options).
  - by destruct (saveScrollInState options).
Qed.

Lemma buffered_event_is_replayed_at_mount_witness :
  dispatched (log (exec (componentDidMount defaultOptions)
                     (buffered_world example_event)))
  = [ {| p_type := "popstate"; p_url := "/item/1";
         p_params := Some {[ "id" := "1" ]}; p_query := Some ∅ |} ].
Proof.
  refine (proj1 (buffered_event_is_replayed_at_mount defaultOptions
                   (buffered_world example_event) example_event
                   eq_refl eq_refl eq_refl _ _)).
  - intros text Hhook. simpl in Hhook. discriminate.
  - simpl. discriminate.
Defined.

Lemma filter_ne_snoc (l : Listener) (ls : list Listener) :
  l ∉ ls → filter (λ l', l' ≠ l) (ls ++ [l]) = ls.
Proof.
  intros Hnot. rewrite filter_app, filter_cons_False by (by intros []).
  rewrite filter_nil, app_nil_r.
  induction ls as [|x ls IH]; [done|].
  apply not_elem_of_cons in Hnot as [Hne Hnot].
  rewrite filter_cons_True by done. by rewrite IH.
Qed.

Lemma mount_subscriptions options w :
  let w' := exec (componentDidMount options) w in
  listeners (history w') = listeners (history w) ++ [bound_onHistoryChange]
  ∧ scroll_listeners (window w')
    = scroll_listeners (window w)
      ++ (if saveScrollInState options then [bound_onScroll] else []).
Proof.
  intros w'. subst w'. rewrite mount_exec.
  unfold mount_listen, mount_replay.
  change (HAS_PUSH_STATE (mount_subscribed options w)) with (HAS_PUSH_STATE w).
  change (lastPendingPopstateEvent (mount_subscribed options w))
    with (lastPendingPopstateEvent w).
  destruct (mount_seeded_frame options (history w)) as (_ & _ & Hl & _).
  destruct (HAS_PUSH_STATE w), (lastPendingPopstateEvent w) as [e|],
    (saveScrollInState options); cbn; rewrite ?Hl, ?app_nil_r; try done.
  all: match goal with
       | |- context [exec (_onHistoryChange ?o ?e) ?v] =>
           destruct (onHistoryChange_frame o e v) as (_ & Hls & Hwin & _)
       end;
    rewrite Hls; cbn; rewrite Hl; (split; [done|]);
    apply (f_equal scroll_listeners) in Hwin; cbn in Hwin;
    rewrite Hwin, ?app_nil_r; done.
Qed.

(** X6. [componentDidMount] subscribes [_onHistoryChange] to the history
    and, exactly when [saveScrollInState] is on, [_onScroll] to scroll
    events; [componentWillUnmount] undoes both: for a component that was
    not subscribed before, the listeners of the history and of the window's
    scroll event after mount and unmount are those before the mount. *)
Theorem unmount_undoes_the_subscriptions options (w : World) :
  bound_onHistoryChange ∉ listeners (history w) →
  bound_onScroll ∉ scroll_listeners (window w) →
  let w1 := exec (componentDidMount options) w in
  let w2 := exec (componentWillUnmount options) w1 in
  (bound_onHistoryChange ∈ listeners (history w1))
  ∧ (saveScrollInState options = true → listening w1)
  ∧ (saveScrollInState options = false → ¬ listening w1)
  ∧ listeners (history w2) = listeners (history w)
  ∧ scroll_listeners (window w2) = scroll_listeners (window w).
Proof.
  intros Hh Hs w1 w2.
  destruct (mount_subscriptions options w) as [Hl Hsl]. fold w1 in Hl, Hsl.
  split; [rewrite Hl; apply elem_of_app; right; by left|].
  split; [intros Hon; unfold listening; rewrite Hsl, Hon;
          apply elem_of_app; right; by left|].
  split; [intros Hoff; unfold listening; by rewrite Hsl, Hoff, app_nil_r|].
  subst w2. rewrite (run_exec _ _ _ _ (unmount_outcome options w1)).
  cbn zeta. destruct (saveScrollInState options); cbn;
    rewrite Hl, ?Hsl, !filter_ne_snoc by done; by rewrite ?app_nil_r.
Qed.

Lemma unmount_undoes_the_subscriptions_witness :
  let w := example_world "/item/1" None false at_item_0 example_window in
  let w2 := exec (componentWillUnmount defaultOptions)
              (exec (componentDidMount defaultOptions) w) in
  listeners (history w2) = [] ∧ scroll_listeners (window w2) = [].
Proof.
  intros w w2.
  refine (proj2 (proj2 (proj2
    (unmount_undoes_the_subscriptions defaultOptions w _ _))));
    simpl; apply not_elem_of_nil.
Defined.

Lemma navType_receive nav w :
  navType (receive nav w) = or_text (nav_type nav) TYPE_DEFAULT.
Proof. done. Qed.

Lemma popstate_sync_restores options nav' v x y :
  enableScroll options = true →
  nav_type nav' = Some "popstate" →
  stored_scroll v = mkScroll (Some x) (Some y) →
  let v' := exec (componentDidUpdate options) (receive nav' v) in
  log v' = log v ++ [ScrollTo x y]
  ∧ (scrollX (window v'), scrollY (window v')) = (x, y)
  ∧ history v' = history v.
Proof.
  intros Hscroll Hpop Hstored v'. subst v'.
  rewrite sync_popstate_outcome;
    [|done|by rewrite navType_receive, Hpop].
  change (stored_scroll (receive nav' v)) with (stored_scroll v).
  by rewrite Hstored.
Qed.

(** X7. With [enableScroll] and [saveScrollInState] on, a sync of type
    click, default or replacestate with [preserveScrollPosition] set, to a
    url other than the history's, does not move the viewport (no
    [scrollTo], the window is as it was) and records the viewport's offset
    [(x, y)] in the state it writes.  A popstate sync on that entry,
    wherever the viewport is by then, scrolls back to [(x, y)]. *)
Theorem preserved_scroll_round_trip options (w : World) (nav nav' : Navigate)
    (x y x' y' : Z) :
  enableScroll options = true →
  saveScrollInState options = true →
  mutating_type (or_text (nav_type nav) TYPE_DEFAULT) →
  nav_preserveScrollPosition nav = true →
  nav_url nav ≠ Some (getUrl (history w)) →
  nav_type nav' = Some "popstate" →
  let state :=
    mkHistoryState (Some (default ∅ (nav_query nav)))
                   (Some (default ∅ (nav_params nav)))
                   (Some (mkScroll (Some x) (Some y))) in
  let title := pageTitle_of (default ∅ (nav_params nav)) in
  let w0 := scrolled_to x y w in
  let w1 := exec (componentDidUpdate options) (receive nav w0) in
  let w2 := exec (componentDidUpdate options)
              (receive nav' (scrolled_to x' y' w1)) in
  (log w1 = log w ++ [PushState state title (nav_url nav)]
   ∨ log w1 = log w ++ [ReplaceState state title (nav_url nav)])
  ∧ window w1 = window w0
  ∧ getState (history w1) = Some state
  ∧ log w2 = log w1 ++ [ScrollTo x y]
  ∧ (scrollX (window w2), scrollY (window w2)) = (x, y).
Proof.
  intros Hscroll Hsave Htype Hpreserve Hurl Hpop state title w0 w1 w2.
  assert (sync_state options (receive nav w0) = state) as Hstate.
  { unfold sync_state. change (nav_of (receive nav w0)) with nav.
    rewrite Hsave, Hpreserve. subst state. do 2 f_equal.
    apply current_scroll_scrolled_to. }
  assert (w1 =
    if bool_decide (or_text (nav_type nav) TYPE_DEFAULT = TYPE_REPLACESTATE)
    then record (ReplaceState state title (nav_url nav))
           (with_history (replaceState state title (nav_url nav))
              (receive nav w0))
    else record (PushState state title (nav_url nav))
           (with_history (pushState state title (nav_url nav))
              (receive nav w0))) as Hw1.
  { subst w1. rewrite sync_mutation_outcome by done.
    by rewrite Hstate, Hpreserve. }
  assert (getState (history w1) = Some state) as Hget.
  { rewrite Hw1. by case_bool_decide. }
  split; [rewrite Hw1; case_bool_decide; [right|left]; done|].
  split; [rewrite Hw1; by case_bool_decide|].
  split; [done|].
  destruct (popstate_sync_restores options nav' (scrolled_to x' y' w1) x y)
    as (Hl & Hv & _); try done.
  unfold stored_scroll.
  change (history (scrolled_to x' y' w1)) with (history w1).
  by rewrite Hget.
Qed.

Lemma preserved_scroll_round_trip_witness :
  let w := example_world "/a" None false at_item_0 example_window in
  let nav := mkNavigate (Some "click") (Some "/b") None None true in
  let nav' := mkNavigate (Some "popstate") (Some "/b") None None false in
  let w1 := exec (componentDidUpdate defaultOptions)
              (receive nav (scrolled_to 0 250 w)) in
  let w2 := exec (componentDidUpdate defaultOptions)
              (receive nav' (scrolled_to 0 900 w1)) in
  (scrollX (window w2), scrollY (window w2)) = (0%Z, 250%Z).
Proof.
  intros w nav nav' w1 w2.
  refine (proj2 (proj2 (proj2 (proj2
    (preserved_scroll_round_trip defaultOptions w nav nav' 0 250 0 900
       eq_refl eq_refl _ eq_refl _ eq_refl))))).
  - left. reflexivity.
  - simpl. discriminate.
Defined.

(** X8. A sync of type replacestate to a url other than the history's
    makes exactly one history mutation, a [replaceState] with the state
    built from the descriptor, and no [pushState]: the depth of the history
    and the entries below the current one are unchanged, the current entry
    takes the descriptor's url (it keeps its own when the descriptor has
    none) and holds the new state. *)
Theorem replacestate_keeps_the_depth options (w : World) (nav : Navigate) :
  nav_type nav = Some "replacestate" →
  nav_url nav ≠ Some (getUrl (history w)) →
  let state := sync_state options (receive nav w) in
  let title := pageTitle_of (default ∅ (nav_params nav)) in
  let w' := exec (componentDidUpdate options) (receive nav w) in
  mutations (log w')
  = mutations (log w) ++ [ReplaceState state title (nav_url nav)]
  ∧ filter is_pushState (log w') = filter is_pushState (log w)
  ∧ depth (history w') = depth (history w)
  ∧ earlier (history w') = earlier (history w)
  ∧ getUrl (history w') = default (getUrl (history w)) (nav_url nav)
  ∧ getState (history w') = Some state.
Proof.
  intros Htype Hurl state title w'. subst w'.
  rewrite sync_mutation_outcome;
    [|rewrite Htype; by right; right|done].
  rewrite Htype. cbn [or_text].
  rewrite (bool_decide_eq_true_2 ("replacestate" ≠ "")) by done.
  rewrite bool_decide_eq_true_2 by done.
  destruct (nav_preserveScrollPosition nav), (enableScroll options);
    cbn -[mutations]; rewrite ?mutations_app, ?filter_app; cbn;
    rewrite ?app_nil_r; done.
Qed.

Lemma replacestate_keeps_the_depth_witness :
  let w := example_world "/a" None false at_item_0 example_window in
  let nav := mkNavigate (Some "replacestate") (Some "/b") None None false in
  let w' := exec (componentDidUpdate defaultOptions) (receive nav w) in
  depth (history w') = 1 ∧ getUrl (history w') = "/b".
Proof.
  intros w nav w'.
  pose proof (replacestate_keeps_the_depth defaultOptions w nav eq_refl) as H.
  refine (let H' := H _ in
          conj (proj1 (proj2 (proj2 H')))
               (proj1 (proj2 (proj2 (proj2 (proj2 H')))))).
  simpl. discriminate.
Defined.

(** X9. For a descriptor whose type is none of click, default,
    replacestate and popstate (pageload, for one), [componentDidUpdate]
    does nothing at all. *)
Theorem other_types_are_ignored options (w : World) :
  navType w ∉ [TYPE_CLICK; TYPE_DEFAULT; TYPE_REPLACESTATE; TYPE_POPSTATE] →
  componentDidUpdate options w = (Normal tt, w).
Proof.
  intros Hother. rewrite componentDidUpdate_outcome. cbn zeta.
  rewrite bool_decide_eq_false_2.
  - rewrite bool_decide_eq_false_2; [done|].
    intros Heq. apply Hother. rewrite Heq. set_solver.
  - intros [Heq | [Heq | Heq]]; apply Hother; rewrite Heq; set_solver.
Qed.

Lemma other_types_are_ignored_witness :
  let nav := mkNavigate (Some "pageload") (Some "/b") None None false in
  let w := receive nav
             (example_world "/a" None false at_item_0 example_window) in
  componentDidUpdate defaultOptions w = (Normal tt, w).
Proof.
  intros nav w.
  refine (other_types_are_ignored defaultOptions w _).
  vm_compute. intros Hin.
  repeat (apply elem_of_cons in Hin as [Hin | Hin]; [discriminate|]).
  by apply elem_of_nil in Hin.
Defined.

Lemma mutations_cons e l :
  mutations (e :: l)
  = if is_mutation e then e :: mutations l else mutations l.
Proof. unfold mutations. rewrite filter_cons. by destruct (is_mutation e). Qed.

Ltac footprint_facts :=
  repeat split; rewrite ?mutations_cons; cbn; try done; try lia;
  try (intros ?; (congruence || (split; done))).

(** X10. What [componentDidUpdate] never does, whatever the props and the
    options: it dispatches no navigation, uses neither the before-unload
    callback nor the confirm prompt, makes at most one history mutation,
    and leaves [this], the timers, [window.onbeforeunload] and the
    history's listeners alone.  With [enableScroll] off it leaves the
    window as it is and its only calls are history mutations (it never
    calls [scrollTo]). *)
Theorem componentDidUpdate_footprint options (w : World) :
  let w' := exec (componentDidUpdate options) w in
  ∃ es, log w' = log w ++ es
        ∧ dispatched es = []
        ∧ consultations es = []
        ∧ length (mutations es) ≤ 1
        ∧ this w' = this w
        ∧ pending (window w') = pending (window w)
        ∧ onbeforeunload (window w') = onbeforeunload (window w)
        ∧ listeners (history w') = listeners (history w)
        ∧ (enableScroll options = false →
             window w' = window w ∧ mutations es = es).
Proof.
  intros w'. subst w'. unfold exec. rewrite componentDidUpdate_outcome.
  cbn zeta. cbn [snd].
  case_bool_decide.
  - case_bool_decide.
    { exists []. rewrite app_nil_r. footprint_facts. }
    destruct (nav_preserveScrollPosition (nav_of w)),
      (enableScroll options) eqn:Hscroll; case_bool_decide;
      eexists; (split; [cbn; rewrite <- ?app_assoc; reflexivity|]);
      footprint_facts.
  - case_bool_decide; [destruct (enableScroll options) eqn:Hscroll|].
    + eexists. split; [reflexivity|]. footprint_facts.
    + exists []. rewrite app_nil_r. footprint_facts.
    + exists []. rewrite app_nil_r. footprint_facts.
Qed.

(** X11. With [enableScroll] on and [saveScrollInState] off, the state a
    sync writes has no [scroll], with or without [preserveScrollPosition];
    so a popstate sync on that entry scrolls to [(0, 0)]. *)
Theorem without_saved_scroll_popstate_goes_to_origin options
    (w : World) (nav nav' : Navigate) (x y : Z) :
  enableScroll options = true →
  saveScrollInState options = false →
  mutating_type (or_text (nav_type nav) TYPE_DEFAULT) →
  nav_url nav ≠ Some (getUrl (history w)) →
  nav_type nav' = Some "popstate" →
  let w1 := exec (componentDidUpdate options) (receive nav w) in
  let w2 := exec (componentDidUpdate options)
              (receive nav' (scrolled_to x y w1)) in
  getState (history w1) ≫= st_scroll = None
  ∧ log w2 = log w1 ++ [ScrollTo 0 0]
  ∧ (scrollX (window w2), scrollY (window w2)) = (0%Z, 0%Z).
Proof.
  intros Hscroll Hsave Htype Hurl Hpop w1 w2.
  assert (getState (history w1) ≫= st_scroll = None) as Hget.
  { subst w1. rewrite sync_mutation_outcome by done.
    unfold sync_state. rewrite Hsave. by case_bool_decide. }
  split; [done|].
  subst w2. rewrite sync_popstate_outcome;
    [|done|by rewrite navType_receive, Hpop].
  assert (stored_scroll (receive nav' (scrolled_to x y w1))
          = mkScroll None None) as ->; [|done].
  unfold stored_scroll.
  change (history (receive nav' (scrolled_to x y w1))) with (history w1).
  rewrite <- stored_scroll_bind, Hget. done.
Qed.

Lemma without_saved_scroll_popstate_goes_to_origin_witness :
  let options := handleHistory_options
                   (Some (mkOpts None None (Some false) None)) in
  let w := example_world "/a" None false at_item_0 example_window in
  let nav := mkNavigate (Some "click") (Some "/b") None None true in
  let nav' := mkNavigate (Some "popstate") (Some "/b") None None false in
  let w1 := exec (componentDidUpdate options)
              (receive nav (scrolled_to 0 250 w)) in
  let w2 := exec (componentDidUpdate options)
              (receive nav' (scrolled_to 0 900 w1)) in
  (scrollX (window w2), scrollY (window w2)) = (0%Z, 0%Z).
Proof.
  intros options w nav nav' w1 w2.
  refine (proj2 (proj2
    (without_saved_scroll_popstate_goes_to_origin options
       (scrolled_to 0 250 w) nav nav' 0 900 eq_refl eq_refl _ _ eq_refl))).
  - left. reflexivity.
  - simpl. discriminate.
Defined.

(** X12. What [_saveScrollPosition] saves, a popstate sync restores.  After
    [_saveScrollPosition] with the viewport at [(x, y)], the current entry
    stores that offset (whether the call wrote it or found it there), and
    with [enableScroll] on a popstate sync, wherever the viewport is by
    then, scrolls back to [(x, y)]. *)
Theorem saved_scroll_is_restored options (w : World) (nav' : Navigate)
    (x y x' y' : Z) :
  enableScroll options = true →
  nav_type nav' = Some "popstate" →
  let w1 := exec _saveScrollPosition (scrolled_to x y w) in
  let w2 := exec (componentDidUpdate options)
              (receive nav' (scrolled_to x' y' w1)) in
  getState (history w1) ≫= st_scroll = Some (mkScroll (Some x) (Some y))
  ∧ log w2 = log w1 ++ [ScrollTo x y]
  ∧ (scrollX (window w2), scrollY (window w2)) = (x, y).
Proof.
  intros Hscroll Hpop w1 w2.
  assert (getState (history w1) ≫= st_scroll
          = Some (mkScroll (Some x) (Some y))) as Hget.
  { subst w1. unfold exec. rewrite saveScrollPosition_outcome. cbn zeta.
    rewrite current_scroll_scrolled_to.
    change (history (scrolled_to x y w)) with (history w).
    destruct (same_scroll _ _ _) eqn:Hsame; cbn [snd]; [|done].
    apply same_scroll_spec in Hsame.
    fold (current_scroll (window (scrolled_to x y w))) in Hsame.
    rewrite current_scroll_scrolled_to in Hsame.
    by rewrite stored_scroll_bind. }
  split; [done|].
  destruct (popstate_sync_restores options nav' (scrolled_to x' y' w1) x y)
    as (Hl & Hv & _); try done.
  unfold stored_scroll.
  change (history (scrolled_to x' y' w1)) with (history w1).
  by rewrite <- stored_scroll_bind, Hget.
Qed.

Lemma saved_scroll_is_restored_witness :
  let w := example_world "/a" None false at_item_0 example_window in
  let nav' := mkNavigate (Some "popstate") (Some "/a") None None false in
  let w1 := exec _saveScrollPosition (scrolled_to 0 250 w) in
  let w2 := exec (componentDidUpdate defaultOptions)
              (receive nav' (scrolled_to 0 900 w1)) in
  (scrollX (window w2), scrollY (window w2)) = (0%Z, 250%Z).
Proof.
  intros w nav' w1 w2.
  exact (proj2 (proj2
    (saved_scroll_is_restored defaultOptions w nav' 0 250 0 900
       eq_refl eq_refl))).
Defined.

(** X16. What [_onHistoryChange] never does, whatever the event and the
    world.  Its calls are, first, calls of the before-unload callback,
    prompts and warnings, and then at most one more: either a [pushState]
    with the current route's url, or the dispatch of one navigation of type
    popstate, never both.  It never calls [replaceState] or [scrollTo];
    [this] and the history's listeners are unchanged and nothing of the
    window changes but [onbeforeunload]. *)
Theorem onHistoryChange_footprint options (e : Event) (w : World) :
  let w' := exec (_onHistoryChange options e) w in
  ∃ es last,
    log w' = log w ++ es ++ last
    ∧ (∀ ef, ef ∈ es → ef = CallOnBeforeUnload
                       ∨ (∃ text, ef = Confirm text)
                       ∨ (∃ msg err, ef = ConsoleWarn msg err))
    ∧ (last = []
       ∨ (∃ state title, last = [PushState state title (currentUrl w)])
       ∨ (∃ payload, last = [ExecuteAction payload]
                     ∧ p_type payload = "popstate"))
    ∧ this w' = this w
    ∧ listeners (history w') = listeners (history w)
    ∧ set_onbeforeunload (onbeforeunload (window w)) (window w') = window w.
Proof.
  intros w'.
  destruct (onHistoryChange_frame options e w) as (Ht & Hl & Hw & _).
  fold w' in Ht, Hl, Hw.
  assert (∀ ef, ef ∈ consulting w →
            ef = CallOnBeforeUnload ∨ (∃ text, ef = Confirm text)
            ∨ (∃ msg err, ef = ConsoleWarn msg err)) as Hcons.
  { unfold consulting. intros ef Hin.
    destruct (onbeforeunload (window w)) as [[text|err]|];
      [destruct (truthy_text text)| |];
      repeat (apply elem_of_cons in Hin as [-> | Hin]);
      try (by apply elem_of_nil in Hin); eauto. }
  subst w'. unfold exec in *. rewrite onHistoryChange_outcome in *.
  cbn zeta in *. cbn [snd] in *.
  destruct (suppressed e w).
  { exists [], []. rewrite app_nil_r. repeat split; try done.
    - by intros ef ?%elem_of_nil.
    - by left. }
  destruct (negb (confirmResult w)).
  { eexists (consulting w), [_]. repeat split; try done.
    right. left. by eexists _, _. }
  case_bool_decide.
  - eexists (consulting w), [_]. repeat split; try done.
    right. right. by eexists.
  - exists (consulting w), []. rewrite app_nil_r. repeat split; try done.
    by left.
Qed.

Lemma saveScrollPosition_window_this w :
  window (exec _saveScrollPosition w) = window w
  ∧ this (exec _saveScrollPosition w) = this w.
Proof.
  unfold exec. rewrite saveScrollPosition_outcome. cbn zeta.
  by case_match.
Qed.

Lemma fire_all_this ids : ∀ w, this (exec (fire_all ids) w) = this w.
Proof.
  induction ids as [|id ids IH]; intros w; [done|].
  cbn [fire_all]. rewrite exec_seq by apply fire_run. rewrite IH.
  unfold exec, fire, bind, modify. cbn -[_saveScrollPosition].
  rewrite saveScrollPosition_run. cbn [snd].
  by destruct (saveScrollPosition_window_this
    (with_window
       (λ win, set_timers (now win) (without_timer id (pending win))
                 (next_timer win) win) w)) as [_ ->].
Qed.

Lemma elapse_this d w : this (exec (elapse d) w) = this w.
Proof.
  unfold exec, elapse, bind, gets, modify. cbn -[fire_all].
  rewrite fire_all_run. cbn [snd]. by rewrite fire_all_this.
Qed.

Lemma step_keeps_flag options w w' :
  step options w w' →
  _ignorePageLoadPopstate (this w') = _ignorePageLoadPopstate (this w).
Proof.
  intros [x y ?|d ?|entry below e ?|p ?|hook ?|?].
  - unfold exec, scroll_event, bind, gets, modify. cbn -[_onScroll].
    case_bool_decide; [|done]. by rewrite onScroll_outcome.
  - by rewrite elapse_this.
  - unfold exec, popstate_event, bind, gets, modify, skip, value.
    cbn -[_onHistoryChange].
    repeat case_bool_decide; cbn -[_onHistoryChange]; try done;
      match goal with
      | |- context [_onHistoryChange ?o ?e ?v] =>
          destruct (onHistoryChange_frame o e v) as (Ht & _);
          unfold exec in Ht; by rewrite Ht
      end.
  - destruct (componentDidUpdate_timers options (with_this (set_props p) w)).
    unfold exec. rewrite componentDidUpdate_outcome. cbn zeta.
    by repeat case_match.
  - done.
  - rewrite (run_exec _ _ _ _ (unmount_outcome options _)). cbn zeta.
    by case_match.
Qed.

(** X14. [this._ignorePageLoadPopstate] is fixed at the mount: in every
    world the mounted component can reach (scroll events, time passing,
    popstate events, new props, a new before-unload callback, unmount) it
    is what [shouldIgnorePopstateOnPageLoad] returned at the mount. *)
Theorem ignore_flag_is_fixed_at_mount options (w0 w : World) :
  reachable options w0 w →
  _ignorePageLoadPopstate (this w) = shouldIgnorePopstateOnPageLoad options.
Proof.
  revert w. apply rtc_ind_r.
  - by destruct (mount_caches_flag_and_seeds_state options w0) as [-> _].
  - intros w1 w2 _ Hstep IH. by rewrite (step_keeps_flag options w1 w2).
Qed.

Lemma ignore_flag_is_fixed_at_mount_witness :
  let w0 := example_world "/a" None false at_item_0 example_window in
  let w := exec (scroll_event 0 10)
             (exec (componentDidMount ignoring_options) w0) in
  _ignorePageLoadPopstate (this w) = true.
Proof.
  intros w0 w.
  refine (ignore_flag_is_fixed_at_mount ignoring_options w0 w _).
  apply rtc_once. apply step_scroll.
Defined.

(** X15. After [componentWillUnmount] the component reacts to nothing: a
    popstate event leaves the log, the history and the window as they are,
    and with [saveScrollInState] on a scroll event only moves the viewport
    (no timer is cleared or armed). *)
Theorem events_after_unmount_are_ignored options (w : World)
    (e : Event) (x y : Z) :
  let w' := exec (componentWillUnmount options) w in
  log (exec (popstate_event options e) w') = log w'
  ∧ history (exec (popstate_event options e) w') = history w'
  ∧ window (exec (popstate_event options e) w') = window w'
  ∧ (saveScrollInState options = true →
       exec (scroll_event x y) w' = scrolled_to x y w').
Proof.
  intros w'.
  assert (bound_onHistoryChange ∉ listeners (history w')) as Hoff.
  { subst w'. rewrite (run_exec _ _ _ _ (unmount_outcome options w)).
    cbn zeta. destruct (saveScrollInState options); cbn;
      apply not_elem_of_filter_ne. }
  assert (popstate_event options e w'
          = (Normal tt,
             if bool_decide (preloadListener ∈ popstate_listeners (window w'))
             then with_lastPending (Some e) w' else w')) as Hpop.
  { unfold popstate_event, bind, gets, modify, skip, value.
    cbn -[_onHistoryChange].
    case_bool_decide; cbn -[_onHistoryChange];
      by rewrite bool_decide_eq_false_2 by done. }
  unfold exec at 1 2 3. rewrite Hpop. cbn [snd].
  split; [by case_bool_decide|]. split; [by case_bool_decide|].
  split; [by case_bool_decide|].
  intros Hsave. apply (run_exec _ _ tt), scroll_event_deaf.
  subst w'. rewrite (run_exec _ _ _ _ (unmount_outcome options w)).
  cbn zeta. rewrite Hsave. unfold listening. cbn.
  apply not_elem_of_filter_ne.
Qed.

(** X13. Scroll events a full delay apart are each saved.  For two scroll
    events to different offsets, each followed by at least 150 time units,
    the entry stores the first offset after the first wait, and the second
    wait makes exactly one history mutation, a [replaceState] that changes
    only [scroll], to the second offset. *)
Theorem spaced_scroll_events_are_each_saved (w : World)
    (x1 y1 x2 y2 : Z) (d1 d2 : nat) :
  listening w → one_timer w →
  150 ≤ d1 → 150 ≤ d2 →
  (x1, y1) ≠ (x2, y2) →
  let w1 := exec (scroll_event x1 y1;; elapse d1) w in
  let w2 := exec (scroll_event x2 y2;; elapse d2) w1 in
  let stored := default emptyState (getState (history w1)) in
  let state := mkHistoryState (st_query stored) (st_params stored)
                 (Some (mkScroll (Some x2) (Some y2))) in
  st_scroll stored = Some (mkScroll (Some x1) (Some y1))
  ∧ mutations (log w2) = mutations (log w1) ++ [ReplaceState state None None]
  ∧ getState (history w2) = Some state.
Proof.
  intros Hl Hone Hd1 Hd2 Hne w1 w2 stored state.
  (* the first event and its timer *)
  destruct (scroll_event_arms x1 y1 w Hl Hone)
    as ((Hl1 & (id1 & Hp1 & Hid1) & Hv1) & _ & _).
  set (v1 := exec (scroll_event x1 y1) w) in *.
  assert (w1 = exec _saveScrollPosition (tick d1 [] v1)) as Hw1.
  { subst w1 v1. rewrite exec_seq by apply scroll_event_run.
    apply (run_exec _ _ tt), (elapse_due _ _ d1 Hp1). cbn. lia. }
  destruct (due_save x1 y1 v1 d1 id1 Hv1 Hp1 Hd1) as (_ & Hs1 & _).
  assert (exec (elapse d1) v1 = w1) as Hel.
  { rewrite Hw1. apply (run_exec _ _ tt), (elapse_due _ _ d1 Hp1). cbn. lia. }
  rewrite Hel, stored_scroll_bind in Hs1. fold stored in Hs1.
  destruct (saveScrollPosition_window_this (tick d1 [] v1)) as [Hwin Hthis].
  rewrite <- Hw1 in Hwin, Hthis.
  assert (listening w1) as Hlw1.
  { unfold listening. rewrite Hwin. exact Hl1. }
  assert (one_timer w1) as Hone1.
  { unfold one_timer. by rewrite Hwin. }
  (* the second event and its timer *)
  destruct (scroll_event_arms x2 y2 w1 Hlw1 Hone1)
    as ((Hl2 & (id2 & Hp2 & Hid2) & Hv2) & Hh2 & Hlog2).
  set (v2 := exec (scroll_event x2 y2) w1) in *.
  assert (w2 = exec (elapse d2) v2) as Hw2.
  { subst w2 v2. by rewrite exec_seq by apply scroll_event_run. }
  split; [done|].
  rewrite Hw2, (due_timer_writes v2 _ d2 Hp2); [| cbn; lia |].
  - rewrite Hh2, Hv2. fold stored. fold state.
    cbn -[mutations]. rewrite mutations_app, Hlog2. done.
  - rewrite Hh2, Hv2. fold stored. rewrite Hs1. intros [= -> ->]. by apply Hne.
Qed.

Lemma spaced_scroll_events_are_each_saved_witness :
  let w := exec (componentDidMount defaultOptions)
             (example_world "/a" None false at_item_0 example_window) in
  let w1 := exec (scroll_event 0 10;; elapse 150) w in
  let w2 := exec (scroll_event 0 20;; elapse 200) w1 in
  getState (history w2)
  = Some (mkHistoryState None None (Some (mkScroll (Some 0%Z) (Some 20%Z)))).
Proof.
  intros w w1 w2.
  refine (proj2 (proj2
    (spaced_scroll_events_are_each_saved w 0 10 0 20 150 200 _ _ _ _ _))).
  - vm_compute. left.
  - vm_compute. exact I.
  - lia.
  - lia.
  - discriminate.
Defined.
